(** * Rank-biased overlap: a shallow embedding of [rbo.py]

    The Python module computes similarity scores between two ranked lists.
    This development embeds the class [RankingSimilarity] (its constructor
    and the methods [rbo] and [rbo_ext]) and proves properties of the scores.

    Modelling choices, all read off the source:
    - Python floats and ints that flow into float arithmetic are exact
      rationals ([Q]); equality of scores is [Qeq] (written [==]).  Rounding
      is therefore outside the model, and so is the [OverflowError] of a
      float power [p**d], which needs [p] above 1 in absolute value.  [rbo]
      checks [p] itself; the theorems on the score and on the output of
      [rbo_ext] take [0 <= p <= 1], where no power can overflow.
    - Python ints used as indices, depths and counters are [Z].
    - A raised exception is a value [Raise e]; the code can raise
      [AssertionError] (the [assert] statements), [IndexError] (indexing a
      list out of range), [UnboundLocalError] (reading a local before it is
      assigned) and [ZeroDivisionError] (true division by zero).  The module
      defines no exception class of its own: its only check of a parameter
      is [assert(0.0 < p < 1.0)] in [rbo], so a failed parameter check is an
      [AssertionError], and a failed check of the input lists is one too.
    - The dict used for membership in [rbo] is a [gmap E bool]; the set used
      in [rbo_ext] is a [gset E].
    - [ProgressPrintOut] only writes to the console and never raises inside
      the loops (its divisor is the loop bound, at least 2 there).  [rbo] and
      [rbo_ext] are modelled without it first; [rbo_printing] and
      [rbo_ext_printing] add it, with the texts written, and are proved to
      have the same outcome.
    - [kendall] is modelled up to its call of [scipy.stats.kendalltau]. *)

From Stdlib Require Import QArith Qpower Lqa Ascii.
From stdpp Require Import gmap strings list fin_maps pretty sorting.

#[local] Set Warnings "-clear-no-such-hyp".

(** ** Exceptions and the result monad *)

Inductive exception : Set :=
  | AssertionError
  | IndexError
  | UnboundLocalError
  | ZeroDivisionError.

Inductive result (X : Type) : Type :=
  | Ok (x : X)
  | Raise (e : exception).
Arguments Ok {X} x.
Arguments Raise {X} e.

#[global] Instance result_ret : MRet result := fun X x => Ok x.
#[global] Instance result_bind : MBind result := fun X Y f m =>
  match m with
  | Ok x => f x
  | Raise e => Raise e
  end.
#[global] Instance result_fmap : FMap result := fun X Y f m =>
  match m with
  | Ok x => Ok (f x)
  | Raise e => Raise e
  end.

(** ** Python primitives *)

(** [assert(b)] *)
Definition assert (b : bool) : result unit :=
  if b then Ok () else Raise AssertionError.

(** [l[i]], with Python's negative indices counting from the end. *)
Definition getitem {X} (l : list X) (i : Z) : result X :=
  let j := if (i <? 0)%Z then (i + Z.of_nat (length l))%Z else i in
  if (j <? 0)%Z then Raise IndexError
  else match l !! Z.to_nat j with
       | Some x => Ok x
       | None => Raise IndexError
       end.

(** [l[i] = x]: Python raises out of range, it never extends the list. *)
Definition setitem {X} (l : list X) (i : Z) (x : X) : result (list X) :=
  let j := if (i <? 0)%Z then (i + Z.of_nat (length l))%Z else i in
  if (j <? 0)%Z then Raise IndexError
  else if bool_decide (Z.to_nat j < length l) then Ok (<[Z.to_nat j := x]> l)
       else Raise IndexError.

(** [x / y], true division. *)
Definition truediv (x y : Q) : result Q :=
  if Qeq_bool y 0 then Raise ZeroDivisionError else Ok (x / y)%Q.

(** [x < y] on numbers. *)
Definition Qltb (x y : Q) : bool :=
  (Qnum x * QDen y <? Qnum y * QDen x)%Z.

(** [range(a, b)] *)
Definition range (a b : Z) : list Z := seqZ a (b - a).

(** [for d in ds: st = body(d, st)], stopping at the first exception. *)
Fixpoint for_each {St} (body : Z → St → result St) (ds : list Z) (st : St)
    : result St :=
  match ds with
  | [] => Ok st
  | d :: ds' => st' ← body d st; for_each body ds' st'
  end.

(** [1 if b else 0] *)
Definition indicator (b : bool) : Z := if b then 1%Z else 0%Z.

Section RankingSimilarity.
Context {E : Type} `{Countable E}.

(** ** The class [RankingSimilarity] *)

(** The fields [S], [T], [N_S], [N_T] of the object ([S] and [T] are
    prefixed, [S] being the successor of [nat]). *)
Record RankingSimilarity : Type := {
  self_S : list E;
  self_T : list E;
  N_S : Z;
  N_T : Z
}.

(** [__init__]: the inputs are lists; each must have as many items as its
    set of items. *)
Definition RankingSimilarity_init (Sl Tl : list E) : result RankingSimilarity :=
  _ ← assert (bool_decide (length Sl = size (list_to_set Sl : gset E)));
  _ ← assert (bool_decide (length Tl = size (list_to_set Tl : gset E)));
  Ok {| self_S := Sl; self_T := Tl;
        N_S := Z.of_nat (length Sl); N_T := Z.of_nat (length Tl) |}.

(** ** [rbo]: the fixed-depth computation *)

(** The locals that the loop of [rbo] updates. *)
Record rbo_state : Type := {
  rbo_A : list Q;
  rbo_AO : list Q;
  rbo_S_running : gmap E bool;
  rbo_T_running : gmap E bool
}.

(** [k = min(self.N_S, self.N_T, k)], where [None] stands for infinity. *)
Definition effective_depth (self : RankingSimilarity) (k : option Z) : Z :=
  match k with
  | None => Z.min (N_S self) (N_T self)
  | Some k => Z.min (Z.min (N_S self) (N_T self)) k
  end.

(** The weights: all 1 when [p == 1.0], else [(1-p) * p**d] after the
    assertion on [p]. *)
Definition rbo_weights (k : Z) (p : Q) : result (list Q) :=
  if Qeq_bool p 1 then Ok ((λ _, 1%Q) <$> range 0 k)
  else
    _ ← assert (Qltb 0 p && Qltb p 1);
    Ok ((λ d, 1 * (1 - p) * p ^ d)%Q <$> range 0 k).

(** Lines 142-144: the running dicts and the entries at depth 0. *)
Definition rbo_first (self : RankingSimilarity) (k : Z) (weights : list Q)
    : result rbo_state :=
  let A := (λ _, 0%Q) <$> range 0 k in
  let AO := (λ _, 0%Q) <$> range 0 k in
  s0 ← getitem (self_S self) 0;
  t0 ← getitem (self_T self) 0;
  let S_running : gmap E bool := {[ s0 := true ]} in
  let T_running : gmap E bool := {[ t0 := true ]} in
  A ← setitem A 0 (if bool_decide (s0 = t0) then 1%Q else 0%Q);
  ao0 ← (if bool_decide (s0 = t0) then getitem weights 0 else Ok 0%Q);
  AO ← setitem AO 0 ao0;
  Ok {| rbo_A := A; rbo_AO := AO;
        rbo_S_running := S_running; rbo_T_running := T_running |}.

(** The body of the loop [for d in range(1, k)]. *)
Definition rbo_body (self : RankingSimilarity) (p : Q) (weights : list Q)
    (d : Z) (st : rbo_state) : result rbo_state :=
  let tmp := 0%Z in
  sd ← getitem (self_S self) d;
  let tmp := (tmp + indicator (bool_decide (is_Some (rbo_T_running st !! sd))))%Z in
  td ← getitem (self_T self) d;
  let tmp := (tmp + indicator (bool_decide (is_Some (rbo_S_running st !! td))))%Z in
  let tmp := (tmp + indicator (bool_decide (sd = td)))%Z in
  a_prev ← getitem (rbo_A st) (d - 1);
  a ← truediv (1 * ((a_prev * inject_Z d) + inject_Z tmp)) (inject_Z (d + 1));
  A ← setitem (rbo_A st) d a;
  AO ← (if Qeq_bool p 1 then
          ao_prev ← getitem (rbo_AO st) (d - 1);
          a_d ← getitem A d;
          ao ← truediv ((ao_prev * inject_Z d) + a_d) (inject_Z (d + 1));
          setitem (rbo_AO st) d ao
        else
          ao_prev ← getitem (rbo_AO st) (d - 1);
          w_d ← getitem weights d;
          a_d ← getitem A d;
          setitem (rbo_AO st) d (ao_prev + w_d * a_d)%Q);
  Ok {| rbo_A := A; rbo_AO := AO;
        rbo_S_running := <[ sd := true ]> (rbo_S_running st);
        rbo_T_running := <[ td := true ]> (rbo_T_running st) |}.

(** Lines 130-172: everything up to the end of the loop; the arrays [A] and
    [AO] are in the final state. *)
Definition rbo_arrays (self : RankingSimilarity) (k : option Z) (p : Q)
    : result rbo_state :=
  let k := effective_depth self k in
  weights ← rbo_weights k p;
  st ← rbo_first self k weights;
  for_each (rbo_body self p weights) (range 1 k) st.

(** The method [rbo(k, p, ext)]. *)
Definition rbo (self : RankingSimilarity) (k : option Z) (p : Q) (ext : bool)
    : result Q :=
  st ← rbo_arrays self k p;
  let k := effective_depth self k in
  if ext && Qltb p 1 then
    ao ← getitem (rbo_AO st) (-1);
    a ← getitem (rbo_A st) (-1);
    Ok (ao + a * p ^ k)%Q
  else
    getitem (rbo_AO st) (-1).

(** ** [rbo_ext]: the full extrapolated computation *)

(** The locals that the loop of [rbo_ext] updates; [ext_term] is [None]
    while the local is unassigned. *)
Record ext_state : Type := {
  ext_X : list Z;
  ext_A : list Q;
  ext_rbo : list Q;
  ext_S_running : gset E;
  ext_L_running : gset E;
  ext_disjoint : Q;
  ext_term : option Q
}.

(** Lines 197-203 and 208: the arrays, the running sets and depth 0. *)
Definition rbo_ext_first (Ss Ls : list E) (l : Z) (p : Q) : result ext_state :=
  let X := (λ _, 0%Z) <$> range 0 l in
  let A := (λ _, 0%Q) <$> range 0 l in
  let rbo := (λ _, 0%Q) <$> range 0 l in
  s0 ← getitem Ss 0;
  l0 ← getitem Ls 0;
  let S_running : gset E := list_to_set [s0] in
  let L_running : gset E := list_to_set [l0] in
  X ← setitem X 0 (indicator (bool_decide (s0 = l0)));
  x0 ← getitem X 0;
  A ← setitem A 0 (inject_Z x0);
  a0 ← getitem A 0;
  rbo ← setitem rbo 0 (1 * (1 - p) * a0)%Q;
  Ok {| ext_X := X; ext_A := A; ext_rbo := rbo;
        ext_S_running := S_running; ext_L_running := L_running;
        ext_disjoint := 0; ext_term := None |}.

(** The body of the loop [for d in range(1, l)]. *)
Definition rbo_ext_body (Ss Ls : list E) (s : Z) (p : Q)
    (d : Z) (st : ext_state) : result ext_state :=
  if (d <? s)%Z then
    sd ← getitem Ss d;
    let S_running := {[ sd ]} ∪ ext_S_running st in
    ld ← getitem Ls d;
    let L_running := {[ ld ]} ∪ ext_L_running st in
    let overlap_incr :=
      if bool_decide (sd = ld) then 1%Z
      else (indicator (bool_decide (sd ∈ L_running))
            + indicator (bool_decide (ld ∈ S_running)))%Z in
    x_prev ← getitem (ext_X st) (d - 1);
    X ← setitem (ext_X st) d (x_prev + overlap_incr)%Z;
    x_d ← getitem X d;
    a ← truediv (2 * inject_Z x_d)
                (inject_Z (Z.of_nat (size S_running) + Z.of_nat (size L_running)));
    A ← setitem (ext_A st) d a;
    r_prev ← getitem (ext_rbo st) (d - 1);
    a_d ← getitem A d;
    rbo ← setitem (ext_rbo st) d (r_prev + 1 * (1 - p) * (p ^ d) * a_d)%Q;
    a_d ← getitem A d;
    Ok {| ext_X := X; ext_A := A; ext_rbo := rbo;
          ext_S_running := S_running; ext_L_running := L_running;
          ext_disjoint := ext_disjoint st;
          ext_term := Some (1 * a_d * p ^ (d + 1))%Q |}
  else
    ld ← getitem Ls d;
    let L_running := {[ ld ]} ∪ ext_L_running st in
    let overlap_incr := indicator (bool_decide (ld ∈ ext_S_running st)) in
    x_prev ← getitem (ext_X st) (d - 1);
    X ← setitem (ext_X st) d (x_prev + overlap_incr)%Z;
    x_d ← getitem X d;
    a ← truediv (1 * inject_Z x_d) (inject_Z (d + 1));
    A ← setitem (ext_A st) d a;
    r_prev ← getitem (ext_rbo st) (d - 1);
    a_d ← getitem A d;
    rbo ← setitem (ext_rbo st) d (r_prev + 1 * (1 - p) * (p ^ d) * a_d)%Q;
    X_s ← getitem X (s - 1);
    q1 ← truediv (inject_Z (X_s * (d + 1 - s))) (inject_Z (d + 1));
    q2 ← truediv q1 (inject_Z s);
    let disjoint := (ext_disjoint st + 1 * (1 - p) * (p ^ d) * q2)%Q in
    x_d ← getitem X d;
    q3 ← truediv (inject_Z (x_d - X_s)) (inject_Z (d + 1));
    x_s1 ← getitem X (s - 1);
    q4 ← truediv (inject_Z x_s1) (inject_Z s);
    Ok {| ext_X := X; ext_A := A; ext_rbo := rbo;
          ext_S_running := ext_S_running st; ext_L_running := L_running;
          ext_disjoint := disjoint;
          ext_term := Some (1 * (q3 + q4) * p ^ (d + 1))%Q |}.

(** Lines 188-193: the short and the long list, in this order; the test is
    [len(self.S) > len(self.T)]. *)
Definition short_long (self : RankingSimilarity) : list E * list E :=
  if bool_decide (length (self_T self) < length (self_S self))
  then (self_T self, self_S self)
  else (self_S self, self_T self).

(** Everything up to the end of the loop of [rbo_ext]. *)
Definition rbo_ext_arrays (self : RankingSimilarity) (p : Q) : result ext_state :=
  let '(Ss, Ls) := short_long self in
  let s := Z.of_nat (length Ss) in
  let l := Z.of_nat (length Ls) in
  st ← rbo_ext_first Ss Ls l p;
  for_each (rbo_ext_body Ss Ls s p) (range 1 l) st.

(** The method [rbo_ext(p)]; the sum reads [rbo[-1]], [disjoint] and
    [ext_term] in this order. *)
Definition rbo_ext (self : RankingSimilarity) (p : Q) : result Q :=
  st ← rbo_ext_arrays self p;
  r ← getitem (ext_rbo st) (-1);
  match ext_term st with
  | Some e => Ok (r + ext_disjoint st + e)%Q
  | None => Raise UnboundLocalError
  end.

End RankingSimilarity.

Arguments RankingSimilarity E : clear implicits.
Arguments rbo_state E {_ _}.
Arguments ext_state E {_ _}.

(** ** The measures, as sets of prefixes

    These definitions state what the arrays are meant to hold; they are
    compared with the code below. *)

Section Measures.
Context {E : Type} `{Countable E}.

(** The number of items common to the two prefixes of length [n]. *)
Definition prefix_overlap (Sl Tl : list E) (n : nat) : nat :=
  size ((list_to_set (take n Sl) : gset E) ∩ list_to_set (take n Tl)).

(** The agreement at depth [d] (counted from 0): the overlap of the prefixes
    of length [d+1], divided by [d+1]. *)
Definition agreement (Sl Tl : list E) (d : nat) : Q :=
  (inject_Z (Z.of_nat (prefix_overlap Sl Tl (S d))) / inject_Z (Z.of_nat (S d)))%Q.

(** [f 0 + ... + f (n-1)] *)
Fixpoint Qsum (f : nat → Q) (n : nat) : Q :=
  match n with
  | O => 0%Q
  | S n' => (Qsum f n' + f n')%Q
  end.

(** The average overlap through [n] depths: the mean of the agreements. *)
Definition average_overlap (Sl Tl : list E) (n : nat) : Q :=
  (Qsum (agreement Sl Tl) n / inject_Z (Z.of_nat n))%Q.

(** The weighted overlap through [n] depths, with weights [(1-p) * p^d]. *)
Definition weighted_overlap (p : Q) (Sl Tl : list E) (n : nat) : Q :=
  Qsum (λ d, (1 - p) * p ^ Z.of_nat d * agreement Sl Tl d)%Q n.

(** What [AO[d]] is meant to hold. *)
Definition overlap_through (p : Q) (Sl Tl : list E) (d : nat) : Q :=
  if Qeq_bool p 1 then average_overlap Sl Tl (S d)
  else weighted_overlap p Sl Tl (S d).

End Measures.

(** The parameters that [rbo] accepts. *)
Definition valid_depth (k : option Z) : Prop :=
  match k with
  | None => True
  | Some k => (1 <= k)%Z
  end.

Definition valid_p (p : Q) : Prop := (p == 1 ∨ (0 < p ∧ p < 1))%Q.

(** The weight of depth [d], as [rbo] computes it. *)
Definition weight (p : Q) (d : nat) : Q :=
  if Qeq_bool p 1 then 1%Q else (1 * (1 - p) * p ^ Z.of_nat d)%Q.

(** The invariant of the loop of [rbo], when the next depth is [n]: the
    arrays keep their length [K], the dicts hold the prefixes of length [n],
    and the entries below [n] hold the agreement and the overlap. *)
Definition rbo_inv {E : Type} `{Countable E} (Sl Tl : list E) (p : Q) (K : nat)
    (n : nat) (st : rbo_state E) : Prop :=
  length (rbo_A st) = K ∧ length (rbo_AO st) = K ∧
  dom (rbo_S_running st) = list_to_set (take n Sl) ∧
  dom (rbo_T_running st) = list_to_set (take n Tl) ∧
  (∀ d, d < n → ∃ a, rbo_A st !! d = Some a ∧ (a == agreement Sl Tl d)%Q) ∧
  (∀ d, d < n → ∃ ao, rbo_AO st !! d = Some ao ∧ (ao == overlap_through p Sl Tl d)%Q).

(** The state of [rbo] with the two running dicts exchanged. *)
Definition rbo_swap {E : Type} `{Countable E} (st : rbo_state E) : rbo_state E :=
  {| rbo_A := rbo_A st; rbo_AO := rbo_AO st;
     rbo_S_running := rbo_T_running st; rbo_T_running := rbo_S_running st |}.

(** The state of [rbo_ext] with the two running sets exchanged. *)
Definition ext_swap {E : Type} `{Countable E} (st : ext_state E) : ext_state E :=
  {| ext_X := ext_X st; ext_A := ext_A st; ext_rbo := ext_rbo st;
     ext_S_running := ext_L_running st; ext_L_running := ext_S_running st;
     ext_disjoint := ext_disjoint st; ext_term := ext_term st |}.

(** The invariant of the loop of [rbo_ext], when the next depth is [n]: the
    arrays keep the length of the long list and [ext_term] is assigned from
    the second turn on; while both lists still have items (and have no
    duplicates) the sets hold the prefixes of length [n], [disjoint] is
    still 0, and the entries below [n] hold the overlap count, the agreement
    and the weighted overlap. *)
Definition ext_inv {E : Type} `{Countable E} (Ss Ls : list E) (p : Q)
    (n : nat) (st : ext_state E) : Prop :=
  length (ext_X st) = length Ls ∧ length (ext_A st) = length Ls ∧
  length (ext_rbo st) = length Ls ∧
  (2 ≤ n → is_Some (ext_term st)) ∧
  (NoDup Ss → NoDup Ls → n ≤ length Ss →
   ext_S_running st = list_to_set (take n Ss) ∧
   ext_L_running st = list_to_set (take n Ls) ∧
   ext_disjoint st = 0%Q ∧
   (∀ d, d < n → ext_X st !! d = Some (Z.of_nat (prefix_overlap Ss Ls (S d)))) ∧
   (∀ d, d < n → ∃ a, ext_A st !! d = Some a ∧ (a == agreement Ss Ls d)%Q) ∧
   (∀ d, d < n → ∃ r, ext_rbo st !! d = Some r
                      ∧ (r == weighted_overlap p Ss Ls (S d))%Q) ∧
   (2 ≤ n → ∃ e, ext_term st = Some e
                 ∧ (e == agreement Ss Ls (n - 1) * p ^ Z.of_nat n)%Q)).

(** The object that [__init__] builds when its assertions pass. *)
Definition ranking_of {E : Type} `{Countable E} (Sl Tl : list E)
    : RankingSimilarity E :=
  {| self_S := Sl; self_T := Tl;
     N_S := Z.of_nat (length Sl); N_T := Z.of_nat (length Tl) |}.

(** The lists of the module's own example: [list('abcde')] and its reverse
    cut to 3 items. *)
Definition abcde : list string := ["a"; "b"; "c"; "d"; "e"].
Definition edc : list string := ["e"; "d"; "c"].

(** ** The measures of [rbo_ext] on lists of unequal length *)

Section ExtMeasures.
Context {E : Type} `{Countable E}.

(** The term that [rbo_ext] adds to [disjoint] at depth [d], once the short
    list [Ss] is exhausted: the overlap at the end of the short list, spread
    over the [d+1-s] further depths. *)
Definition disjoint_term (p : Q) (Ss Ls : list E) (d : nat) : Q :=
  if bool_decide (d < length Ss) then 0%Q
  else ((1 - p) * p ^ Z.of_nat d
        * (inject_Z (Z.of_nat (prefix_overlap Ss Ls (length Ss))
                     * (Z.of_nat d + 1 - Z.of_nat (length Ss)))
           / inject_Z (Z.of_nat d + 1) / inject_Z (Z.of_nat (length Ss))))%Q.

(** What [ext_term] is meant to hold after [n] depths, [n] at least the
    length of the short list. *)
Definition tail_term (p : Q) (Ss Ls : list E) (n : nat) : Q :=
  ((inject_Z (Z.of_nat (prefix_overlap Ss Ls n)
              - Z.of_nat (prefix_overlap Ss Ls (length Ss)))
    / inject_Z (Z.of_nat n)
    + inject_Z (Z.of_nat (prefix_overlap Ss Ls (length Ss)))
      / inject_Z (Z.of_nat (length Ss)))
   * p ^ Z.of_nat n)%Q.

(** The invariant of the loop of [rbo_ext] once the short list is
    exhausted, when the next depth is [n]. *)
Definition ext_tail_inv (Ss Ls : list E) (p : Q) (n : nat) (st : ext_state E)
    : Prop :=
  length (ext_X st) = length Ls ∧ length (ext_A st) = length Ls ∧
  length (ext_rbo st) = length Ls ∧
  ext_S_running st = list_to_set Ss ∧
  ext_L_running st = list_to_set (take n Ls) ∧
  (ext_disjoint st == Qsum (disjoint_term p Ss Ls) n)%Q ∧
  (∀ d, d < n → ext_X st !! d = Some (Z.of_nat (prefix_overlap Ss Ls (S d)))) ∧
  (∀ d, d < n → ∃ a, ext_A st !! d = Some a ∧ (a == agreement Ss Ls d)%Q) ∧
  (∀ d, d < n → ∃ r, ext_rbo st !! d = Some r
                     ∧ (r == weighted_overlap p Ss Ls (S d))%Q) ∧
  (2 ≤ n → ∃ e, ext_term st = Some e ∧ (e == tail_term p Ss Ls n)%Q).

End ExtMeasures.

(** ** [ProgressPrintOut] and the console *)

(** A computation that writes to the standard output: the texts written, in
    order, and the outcome.  The texts written before an exception stay
    written. *)
Definition traced (X : Type) : Type := list string * result X.

Definition traced_ret {X} (x : X) : traced X := ([], Ok x).

Definition traced_bind {X Y} (m : traced X) (f : X → traced Y) : traced Y :=
  match m with
  | (out, Ok x) => let '(out', r) := f x in (out ++ out', r)
  | (out, Raise e) => (out, Raise e)
  end.

(** A computation that writes nothing. *)
Definition silent {X} (r : result X) : traced X := ([], r).

(** [print(a, b, ..., end=end_)]: the arguments joined by single spaces,
    then [end_], written in one go. *)
Definition print (args : list string) (end_ : string) : traced unit :=
  ([String.concat " " args +:+ end_], Ok ()).

(** The characters ['\r'] and ['\n']. *)
Definition CR : string := String "013"%char "".
Definition LF : string := String "010"%char "".

(** [x // y] on ints: the floor division, which is [Z.div]. *)
Definition floordiv (x y : Z) : result Z :=
  if (y =? 0)%Z then Raise ZeroDivisionError else Ok (x `div` y)%Z.

(** The fields [_old] and [_total] of a [ProgressPrintOut]. *)
Record ProgressPrintOut : Type := {
  pp_old : Z;
  pp_total : Z
}.

(** [ProgressPrintOut.__init__(N)] *)
Definition ProgressPrintOut_init (N : Z) : ProgressPrintOut :=
  {| pp_old := 0; pp_total := N |}.

(** ['Current progress: {} %...'.format(cur)], as [print] writes it after
    ['\r']. *)
Definition progress_line (cur : Z) : string :=
  String.concat " " [CR; "Current progress: " +:+ pretty cur +:+ " %..."].

(** [ProgressPrintOut.printout(i, delta)]; the object is returned in its new
    state. *)
Definition printout (self : ProgressPrintOut) (i delta : Z)
    : traced ProgressPrintOut :=
  traced_bind (silent (floordiv (100 * i) (pp_total self))) (λ cur,
  traced_bind
    (if (pp_old self + delta <=? cur)%Z then
       traced_bind (print [CR; "Current progress: " +:+ pretty cur +:+ " %..."] "")
         (λ _, traced_ret {| pp_old := cur; pp_total := pp_total self |})
     else traced_ret self) (λ self,
  traced_bind
    (if (i =? pp_total self - 1)%Z then
       traced_bind (print [CR; "Current progress: 100 %..."] "")
         (λ _, print [LF +:+ "Finished!"] LF)
     else traced_ret ()) (λ _,
  traced_ret self))).

(** [for d in ds: st = body(d, st)] for a body that writes. *)
Fixpoint for_each_traced {St} (body : Z → St → traced St) (ds : list Z) (st : St)
    : traced St :=
  match ds with
  | [] => traced_ret st
  | d :: ds' => traced_bind (body d st) (for_each_traced body ds')
  end.

(** A loop body that starts with [PP.printout(d)], as those of [rbo] and
    [rbo_ext] do; the state of the loop is paired with [PP]. *)
Definition with_progress {St} (body : Z → St → result St)
    (d : Z) (st : ProgressPrintOut * St) : traced (ProgressPrintOut * St) :=
  traced_bind (printout st.1 d 10) (λ PP,
  traced_bind (silent (body d st.2)) (λ st', traced_ret (PP, st'))).

Section Printing.
Context {E : Type} `{Countable E}.

(** [rbo] with what it writes: as [rbo], with [PP = ProgressPrintOut(k)]
    before the loop and [PP.printout(d)] at the start of each turn. *)
Definition rbo_printing (self : RankingSimilarity E) (k : option Z) (p : Q)
    (ext : bool) : traced Q :=
  let k := effective_depth self k in
  traced_bind (silent (rbo_weights k p)) (λ weights,
  traced_bind (silent (rbo_first self k weights)) (λ st,
  let PP := ProgressPrintOut_init k in
  traced_bind
    (for_each_traced (with_progress (rbo_body self p weights)) (range 1 k) (PP, st))
    (λ '(_, st),
  silent (if ext && Qltb p 1 then
            ao ← getitem (rbo_AO st) (-1);
            a ← getitem (rbo_A st) (-1);
            Ok (ao + a * p ^ k)%Q
          else
            getitem (rbo_AO st) (-1))))).

(** [rbo_ext] with what it writes: as [rbo_ext], with
    [PP = ProgressPrintOut(l)] before the loop and [PP.printout(d)] at the
    start of each turn. *)
Definition rbo_ext_printing (self : RankingSimilarity E) (p : Q) : traced Q :=
  let '(Ss, Ls) := short_long self in
  let s := Z.of_nat (length Ss) in
  let l := Z.of_nat (length Ls) in
  traced_bind (silent (rbo_ext_first Ss Ls l p)) (λ st,
  let PP := ProgressPrintOut_init l in
  traced_bind
    (for_each_traced (with_progress (rbo_ext_body Ss Ls s p)) (range 1 l) (PP, st))
    (λ '(_, st),
  silent (r ← getitem (ext_rbo st) (-1);
          match ext_term st with
          | Some e => Ok (r + ext_disjoint st + e)%Q
          | None => Raise UnboundLocalError
          end))).

End Printing.

(** What the loops over [range(1, N)] are meant to write: nothing when the
    loop has no turn; else progress lines for percentages between 10 and 99,
    each at least 10 above the one before, then the line for 100 % and the
    closing line. *)
Definition progress_report (N : Z) (out : list string) : Prop :=
  if bool_decide (N <= 1)%Z then out = []
  else ∃ cs : list Z,
    out = (progress_line <$> cs) ++ [progress_line 100; LF +:+ "Finished!" +:+ LF]
    ∧ Forall (λ c, 10 <= c <= 99)%Z cs
    ∧ ∀ i a b, cs !! i = Some a → cs !! S i = Some b → (a + 10 <= b)%Z.

(** The invariant of the progress reports in a loop with bound [K]: what has
    been written so far and the state of [PP]. *)
Definition progress_inv (K : Z) (out : list string) (PP : ProgressPrintOut)
    : Prop :=
  pp_total PP = K ∧ (0 <= pp_old PP <= 99)%Z ∧
  ∃ cs : list Z,
    out = progress_line <$> cs
    ∧ Forall (λ c, 10 <= c <= 99)%Z cs
    ∧ (∀ i a b, cs !! i = Some a → cs !! S i = Some b → (a + 10 <= b)%Z)
    ∧ (∀ c, last cs = Some c → (c <= pp_old PP)%Z).

(** ** [kendall], up to the call of [scipy.stats.kendalltau]

    The items are compared by [sorted]; [R] is their order ([<=] on strings
    or on numbers).  What [kendall] writes is left out: two of its lines
    format floats. *)

Section Kendall.
Context {E : Type} `{Countable E} (R : relation E) `{!RelDecision R}.

(** The inner function [common_ranking(L, common_set)].  The dict maps each
    common item to its position in [L]; its keys are sorted and mapped
    through [tmp_dict.get], which gives [None] on a missing key. *)
Definition common_ranking (L : list E) (common_set : gset E) : list (option Z) :=
  let tmp_dict : gmap E Z :=
    foldl (λ m ix, if bool_decide (ix.2 ∈ common_set) then <[ix.2 := ix.1]> m else m)
          ∅ (imap (λ i x, (Z.of_nat i, x)) L) in
  let L_rank := (λ x, tmp_dict !! x) <$> merge_sort R (map_to_list tmp_dict).*1 in
  L_rank.

(** Lines 66-88 of [kendall]: the common items, the two proportions that are
    written (each a true division by the length of a list) and the two rank
    lists.  The value is the pair of arguments of the call
    [kendalltau(S_rank, T_rank)]. *)
Definition kendall_ranks (self : RankingSimilarity E)
    : result (list (option Z) * list (option Z)) :=
  let common_elements : gset E :=
    list_to_set (self_S self) ∩ list_to_set (self_T self) in
  let N_c := Z.of_nat (size common_elements) in
  _ ← truediv (100 * inject_Z N_c) (inject_Z (N_S self));
  _ ← truediv (100 * inject_Z N_c) (inject_Z (N_T self));
  let S_rank := common_ranking (self_S self) common_elements in
  let T_rank := common_ranking (self_T self) common_elements in
  Ok (S_rank, T_rank).

End Kendall.

(** ** Lemmas on the primitives *)

Lemma Qltb_lt (x y : Q) : Qltb x y = true ↔ (x < y)%Q.
Proof. unfold Qltb, Qlt. apply Z.ltb_lt. Qed.

Lemma Qltb_ge (x y : Q) : Qltb x y = false ↔ (y <= x)%Q.
Proof. unfold Qltb, Qle. apply Z.ltb_ge. Qed.

Lemma getitem_lookup {X} (l : list X) (n : nat) (x : X) :
  l !! n = Some x → getitem l (Z.of_nat n) = Ok x.
Proof.
  intros Hl. unfold getitem.
  destruct (Z.ltb_spec (Z.of_nat n) 0%Z) as [Hn|Hn]; [lia|].
  destruct (Z.ltb_spec (Z.of_nat n) 0%Z); [lia|].
  by rewrite Nat2Z.id, Hl.
Qed.

Lemma getitem_nil {X} (i : Z) : getitem (@nil X) i = Raise IndexError.
Proof.
  unfold getitem. simpl. rewrite Z.add_0_r.
  destruct (i <? 0)%Z eqn:Hi; [by rewrite Hi|].
  by rewrite Hi.
Qed.

Lemma getitem_last {X} (l : list X) (n : nat) (x : X) :
  length l = S n → l !! n = Some x → getitem l (-1) = Ok x.
Proof.
  intros Hlen Hl. unfold getitem. simpl. rewrite Hlen.
  destruct (Z.ltb_spec (-1 + Z.of_nat (S n))%Z 0%Z); [lia|].
  replace (Z.to_nat (-1 + Z.of_nat (S n))%Z) with n by lia.
  by rewrite Hl.
Qed.

Lemma setitem_insert {X} (l : list X) (n : nat) (x : X) :
  n < length l → setitem l (Z.of_nat n) x = Ok (<[n := x]> l).
Proof.
  intros Hn. unfold setitem.
  destruct (Z.ltb_spec (Z.of_nat n) 0%Z); [lia|].
  destruct (Z.ltb_spec (Z.of_nat n) 0%Z); [lia|].
  rewrite Nat2Z.id. by rewrite bool_decide_eq_true_2.
Qed.

Lemma setitem_nil {X} (i : Z) (x : X) : setitem [] i x = Raise IndexError.
Proof.
  unfold setitem. simpl. rewrite Z.add_0_r.
  destruct (i <? 0)%Z eqn:Hi; [by rewrite Hi|].
  by rewrite Hi.
Qed.

Lemma truediv_ok (x y : Q) : ¬ (y == 0)%Q → truediv x y = Ok (x / y)%Q.
Proof.
  intros Hy. unfold truediv.
  destruct (Qeq_bool y 0) eqn:Hb; [|done].
  by apply Qeq_bool_iff in Hb.
Qed.

Lemma inject_Z_pos_neq0 (z : Z) : (0 < z)%Z → ¬ (inject_Z z == 0)%Q.
Proof. intros Hz Hq. unfold Qeq in Hq. simpl in Hq. lia. Qed.

Lemma range_nil (a b : Z) : (b <= a)%Z → range a b = [].
Proof. intros Hab. unfold range, seqZ. by replace (Z.to_nat (b - a)) with O by lia. Qed.

Lemma range_cons (a b : Z) : (a < b)%Z → range a b = a :: range (a + 1) b.
Proof.
  intros Hab. unfold range. rewrite seqZ_cons by lia.
  f_equal. f_equal; lia.
Qed.

Lemma length_range (a b : Z) : length (range a b) = Z.to_nat (b - a).
Proof. unfold range. apply length_seqZ. Qed.

(** The rule for a loop over [range(a, b)] with an invariant indexed by the
    next value of the loop variable. *)
Lemma for_each_range {St} (body : Z → St → result St) (I : nat → St → Prop)
    (n a : nat) (st : St) :
  I a st →
  (∀ i st, a ≤ i < a + n → I i st →
     ∃ st', body (Z.of_nat i) st = Ok st' ∧ I (S i) st') →
  ∃ st', for_each body (range (Z.of_nat a) (Z.of_nat (a + n))) st = Ok st'
         ∧ I (a + n) st'.
Proof.
  revert a st. induction n as [|n IH]; intros a st Hst Hbody.
  - rewrite range_nil by lia. exists st. simpl. by rewrite Nat.add_0_r.
  - rewrite range_cons by lia. simpl.
    destruct (Hbody a st) as (st1 & Hb & Hst1); [lia | done |].
    rewrite Hb. simpl. unfold mbind, result_bind.
    destruct (IH (S a) st1) as (st2 & Hl & Hst2); [done | |].
    + intros i st' Hi. apply Hbody. lia.
    + exists st2. replace (Z.of_nat a + 1)%Z with (Z.of_nat (S a)) by lia.
      replace (Z.of_nat (a + S n)) with (Z.of_nat (S a + n)) by lia.
      split; [done|]. by replace (a + S n) with (S a + n) by lia.
Qed.

(** ** Lemmas on prefixes and their overlap *)

Section Overlap.
Context {E : Type} `{Countable E}.
Implicit Types Sl Tl : list E.

Lemma size_list_to_set_le (l : list E) :
  size (list_to_set l : gset E) ≤ length l.
Proof.
  induction l as [|x l IH].
  - by rewrite list_to_set_nil, size_empty.
  - rewrite list_to_set_cons, size_union_alt, size_singleton. simpl.
    assert (size (list_to_set l ∖ {[x]} : gset E) ≤ size (list_to_set l : gset E))
      as Hsub by (apply subseteq_size; set_solver).
    lia.
Qed.

Lemma size_list_to_set_NoDup (l : list E) :
  length l = size (list_to_set l : gset E) → NoDup l.
Proof.
  induction l as [|x l IH]; intros Hlen; [constructor|].
  rewrite list_to_set_cons in Hlen. simpl in Hlen.
  pose proof (size_list_to_set_le l) as Hle.
  destruct (decide (x ∈ l)) as [Hin|Hin].
  - replace ({[x]} ∪ list_to_set l : gset E) with (list_to_set l : gset E) in Hlen
      by set_solver.
    lia.
  - rewrite size_union in Hlen by set_solver.
    rewrite size_singleton in Hlen.
    constructor; [done|]. apply IH. lia.
Qed.

Lemma init_Ok Sl Tl self :
  RankingSimilarity_init Sl Tl = Ok self →
  NoDup Sl ∧ NoDup Tl ∧
  self = {| self_S := Sl; self_T := Tl;
            N_S := Z.of_nat (length Sl); N_T := Z.of_nat (length Tl) |}.
Proof.
  unfold RankingSimilarity_init, assert.
  repeat case_bool_decide; simpl; intros Hinit; try done.
  injection Hinit as <-. split_and!; [by apply size_list_to_set_NoDup.. | done].
Qed.

Lemma init_NoDup Sl Tl :
  NoDup Sl → NoDup Tl →
  RankingSimilarity_init Sl Tl =
    Ok {| self_S := Sl; self_T := Tl;
          N_S := Z.of_nat (length Sl); N_T := Z.of_nat (length Tl) |}.
Proof.
  intros HS HT. unfold RankingSimilarity_init, assert.
  rewrite !bool_decide_eq_true_2; [done | ..];
    symmetry; by apply size_list_to_set.
Qed.

Lemma NoDup_take_prefix (l : list E) (n : nat) : NoDup l → NoDup (take n l).
Proof. intros Hl. eapply sublist_NoDup; [done | apply sublist_take]. Qed.

Lemma NoDup_take_fresh (l : list E) (n : nat) (x : E) :
  NoDup l → l !! n = Some x → x ∉ take n l.
Proof.
  intros Hl Hx [i [Hi Hlt]]%elem_of_take.
  pose proof (NoDup_lookup l i n x Hl Hi Hx). lia.
Qed.

Lemma size_union_fresh (X : gset E) (x : E) :
  x ∉ X → size (X ∪ {[x]}) = S (size X).
Proof.
  intros Hx. rewrite size_union by set_solver. rewrite size_singleton. lia.
Qed.

Lemma prefix_overlap_comm Sl Tl n : prefix_overlap Sl Tl n = prefix_overlap Tl Sl n.
Proof. unfold prefix_overlap. f_equal. set_solver. Qed.

Lemma prefix_overlap_le Sl Tl n : prefix_overlap Sl Tl n ≤ n.
Proof.
  unfold prefix_overlap.
  etrans; [apply (subseteq_size _ (list_to_set (take n Sl))); set_solver|].
  etrans; [apply size_list_to_set_le|]. rewrite length_take. lia.
Qed.

Lemma prefix_overlap_same Sl n :
  NoDup Sl → n ≤ length Sl → prefix_overlap Sl Sl n = n.
Proof.
  intros HS Hn. unfold prefix_overlap.
  replace (list_to_set (take n Sl) ∩ list_to_set (take n Sl) : gset E)
    with (list_to_set (take n Sl) : gset E) by set_solver.
  rewrite size_list_to_set by (by apply NoDup_take_prefix).
  rewrite length_take. lia.
Qed.

Lemma prefix_overlap_disjoint Sl Tl n :
  (∀ x, x ∈ Sl → x ∉ Tl) → prefix_overlap Sl Tl n = 0.
Proof.
  intros Hdisj. unfold prefix_overlap. apply size_empty_iff.
  apply set_equiv. intros x. split; [|set_solver].
  rewrite elem_of_intersection, !elem_of_list_to_set.
  intros [HxS HxT]. exfalso.
  apply (Hdisj x); eapply subseteq_take; eauto.
Qed.

(** The recurrence behind [tmp]: a new common item is the new item of [S]
    found in the old prefix of [T], the new item of [T] found in the old
    prefix of [S], or both new items when they are equal; with no
    duplicates the three cases exclude each other. *)
Lemma prefix_overlap_S Sl Tl n s t :
  NoDup Sl → NoDup Tl → Sl !! n = Some s → Tl !! n = Some t →
  Z.of_nat (prefix_overlap Sl Tl (S n)) =
    (Z.of_nat (prefix_overlap Sl Tl n)
     + indicator (bool_decide (s ∈ take n Tl))
     + indicator (bool_decide (t ∈ take n Sl))
     + indicator (bool_decide (s = t)))%Z.
Proof.
  intros HS HT Hs Ht. unfold prefix_overlap.
  rewrite (take_S_r _ _ _ Hs), (take_S_r _ _ _ Ht).
  pose proof (NoDup_take_fresh Sl n s HS Hs) as HsS.
  pose proof (NoDup_take_fresh Tl n t HT Ht) as HtT.
  rewrite !list_to_set_snoc_L.
  set (P := list_to_set (take n Sl) : gset E) in *.
  set (R := list_to_set (take n Tl) : gset E) in *.
  assert (s ∉ P) as HsP by (subst P; set_solver).
  assert (t ∉ R) as HtR by (subst R; set_solver).
  rewrite (bool_decide_ext (s ∈ take n Tl) (s ∈ R)) by (subst R; set_solver).
  rewrite (bool_decide_ext (t ∈ take n Sl) (t ∈ P)) by (subst P; set_solver).
  clearbody P R. clear HsS HtT. unfold indicator.
  repeat case_bool_decide; subst; try done.
  - replace ((P ∪ {[s]}) ∩ (R ∪ {[t]})) with (P ∩ R ∪ {[s]} ∪ {[t]}) by set_solver.
    rewrite !size_union_fresh by set_solver. lia.
  - replace ((P ∪ {[s]}) ∩ (R ∪ {[t]})) with (P ∩ R ∪ {[s]}) by set_solver.
    rewrite !size_union_fresh by set_solver. lia.
  - replace ((P ∪ {[s]}) ∩ (R ∪ {[t]})) with (P ∩ R ∪ {[t]}) by set_solver.
    rewrite !size_union_fresh by set_solver. lia.
  - replace ((P ∪ {[t]}) ∩ (R ∪ {[t]})) with (P ∩ R ∪ {[t]}) by set_solver.
    rewrite !size_union_fresh by set_solver. lia.
  - replace ((P ∪ {[s]}) ∩ (R ∪ {[t]})) with (P ∩ R) by set_solver.
    lia.
Qed.
End Overlap.

(** ** The loop of [rbo] *)

Lemma bind_Ok {X Y} (f : X → result Y) (x : X) : (Ok x ≫= f) = f x.
Proof. reflexivity. Qed.

Lemma bind_Raise {X Y} (f : X → result Y) (e : exception) : (Raise e ≫= f) = Raise e.
Proof. reflexivity. Qed.

Lemma lookup_range_fmap {X} (f : Z → X) (k : Z) (d : nat) :
  d < Z.to_nat k → (f <$> range 0 k) !! d = Some (f (Z.of_nat d)).
Proof.
  intros Hd. rewrite list_lookup_fmap. unfold range.
  rewrite lookup_seqZ_lt by lia. simpl. f_equal.
Qed.

Lemma length_range_fmap {X} (f : Z → X) (k : Z) :
  length (f <$> range 0 k) = Z.to_nat k.
Proof. rewrite length_fmap, length_range. f_equal. lia. Qed.

Lemma rbo_weights_Ok (k : Z) (p : Q) :
  valid_p p →
  ∃ ws, rbo_weights k p = Ok ws ∧
    ∀ d, d < Z.to_nat k → ws !! d = Some (weight p d).
Proof.
  intros Hp. unfold rbo_weights, weight.
  destruct (Qeq_bool p 1) eqn:Hp1.
  - eexists. split; [done|]. intros d Hd. by rewrite lookup_range_fmap.
  - destruct Hp as [Hp|[Hp0 Hp1']].
    { apply Qeq_bool_iff in Hp. congruence. }
    apply Qltb_lt in Hp0, Hp1'. rewrite Hp0, Hp1'. simpl.
    eexists. split; [done|]. intros d Hd. by rewrite lookup_range_fmap.
Qed.

Lemma rbo_weights_invalid (k : Z) (p : Q) :
  ¬ valid_p p → rbo_weights k p = Raise AssertionError.
Proof.
  intros Hp. unfold rbo_weights.
  destruct (Qeq_bool p 1) eqn:Hp1.
  { apply Qeq_bool_iff in Hp1. destruct Hp. by left. }
  destruct (Qltb 0 p) eqn:Hp0; [|done].
  destruct (Qltb p 1) eqn:Hp1'; [|done].
  apply Qltb_lt in Hp0, Hp1'. destruct Hp. by right.
Qed.

Lemma getitem_0 {X} (l : list X) (x : X) : l !! 0 = Some x → getitem l 0 = Ok x.
Proof. apply (getitem_lookup l 0). Qed.

Lemma setitem_0 {X} (l : list X) (x : X) :
  0 < length l → setitem l 0 x = Ok (<[0 := x]> l).
Proof. apply (setitem_insert l 0). Qed.

Section RboLoop.
Context {E : Type} `{Countable E}.
Variables (Sl Tl : list E) (p : Q) (K : nat) (ws : list Q).
Hypothesis HS : NoDup Sl.
Hypothesis HT : NoDup Tl.
Hypothesis HKS : K ≤ length Sl.
Hypothesis HKT : K ≤ length Tl.
Hypothesis Hws : ∀ d, d < K → ws !! d = Some (weight p d).

Let self : RankingSimilarity E :=
  {| self_S := Sl; self_T := Tl;
     N_S := Z.of_nat (length Sl); N_T := Z.of_nat (length Tl) |}.

Lemma agreement_0 s0 t0 :
  Sl !! 0 = Some s0 → Tl !! 0 = Some t0 →
  (agreement Sl Tl 0 == if bool_decide (s0 = t0) then 1 else 0)%Q.
Proof.
  intros Hs Ht. unfold agreement.
  pose proof (prefix_overlap_S Sl Tl 0 s0 t0 HS HT Hs Ht) as Hov.
  rewrite Hov. unfold prefix_overlap. rewrite !take_0.
  rewrite !bool_decide_eq_false_2 by set_solver.
  replace (list_to_set [] ∩ list_to_set [] : gset E) with (∅ : gset E) by set_solver.
  rewrite size_empty. unfold indicator. by destruct (bool_decide (s0 = t0)).
Qed.

Lemma rbo_first_inv :
  0 < K →
  ∃ st, rbo_first self (Z.of_nat K) ws = Ok st ∧ rbo_inv Sl Tl p K 1 st.
Proof.
  intros HK. unfold rbo_first.
  destruct (lookup_lt_is_Some_2 Sl 0) as [s0 Hs0]; [lia|].
  destruct (lookup_lt_is_Some_2 Tl 0) as [t0 Ht0]; [lia|].
  cbn [self_S self_T self].
  rewrite (getitem_0 Sl s0 Hs0), bind_Ok.
  rewrite (getitem_0 Tl t0 Ht0), bind_Ok.
  rewrite setitem_0 by (rewrite length_range_fmap; lia).
  rewrite bind_Ok.
  assert (getitem ws 0 = Ok (weight p 0)) as Hw0.
  { apply getitem_0, Hws. lia. }
  assert (∃ ao0, (if bool_decide (s0 = t0) then getitem ws 0 else Ok 0%Q) = Ok ao0
                 ∧ (ao0 == overlap_through p Sl Tl 0)%Q) as (ao0 & -> & Hao0).
  { pose proof (agreement_0 s0 t0 Hs0 Ht0) as Ha0.
    unfold overlap_through, average_overlap, weighted_overlap. simpl.
    rewrite Hw0. unfold weight.
    destruct (bool_decide (s0 = t0)), (Qeq_bool p 1); eexists; (split; [done|]);
      rewrite Ha0; simpl; first [reflexivity | ring]. }
  rewrite bind_Ok.
  rewrite setitem_0 by (rewrite length_range_fmap; lia).
  rewrite bind_Ok. eexists. split; [done|].
  unfold rbo_inv. cbn [rbo_A rbo_AO rbo_S_running rbo_T_running].
  rewrite !length_insert, !length_range_fmap, Nat2Z.id.
  rewrite !dom_singleton_L.
  rewrite (take_S_r Sl 0 s0 Hs0), (take_S_r Tl 0 t0 Ht0), !take_0. simpl.
  split_and!; try done; try set_solver.
  - intros d Hd. assert (d = 0) as -> by lia.
    eexists. split; [apply list_lookup_insert_eq; rewrite length_range_fmap; lia|].
    by rewrite (agreement_0 s0 t0 Hs0 Ht0).
  - intros d Hd. assert (d = 0) as -> by lia.
    eexists. split; [apply list_lookup_insert_eq; rewrite length_range_fmap; lia|].
    done.
Qed.

(** One turn of the loop keeps the invariant. *)
Lemma rbo_body_inv (n : nat) (st : rbo_state E) :
  0 < n < K → rbo_inv Sl Tl p K n st →
  ∃ st', rbo_body self p ws (Z.of_nat n) st = Ok st' ∧ rbo_inv Sl Tl p K (S n) st'.
Proof.
  intros Hn (HlenA & HlenAO & HdomS & HdomT & HA & HAO).
  destruct (lookup_lt_is_Some_2 Sl n) as [sd Hsd]; [lia|].
  destruct (lookup_lt_is_Some_2 Tl n) as [td Htd]; [lia|].
  destruct (HA (n - 1)) as (a_prev & Ha_prev & Ha_prev_eq); [lia|].
  destruct (HAO (n - 1)) as (ao_prev & Hao_prev & Hao_prev_eq); [lia|].
  unfold rbo_body. cbn [self_S self_T self].
  rewrite (getitem_lookup Sl n sd Hsd), bind_Ok.
  rewrite (getitem_lookup Tl n td Htd), bind_Ok.
  replace (Z.of_nat n - 1)%Z with (Z.of_nat (n - 1)) by lia.
  rewrite (getitem_lookup _ _ _ Ha_prev), bind_Ok.
  rewrite truediv_ok by (apply inject_Z_pos_neq0; lia).
  rewrite bind_Ok.
  rewrite setitem_insert by lia. rewrite bind_Ok.
  rewrite (getitem_lookup _ _ _ Hao_prev), !bind_Ok.
  rewrite (bool_decide_ext (is_Some (rbo_T_running st !! sd)) (sd ∈ take n Tl))
    by (rewrite <- elem_of_dom, HdomT; set_solver).
  rewrite (bool_decide_ext (is_Some (rbo_S_running st !! td)) (td ∈ take n Sl))
    by (rewrite <- elem_of_dom, HdomS; set_solver).
  match goal with |- context [<[n := ?v]> (rbo_A st)] => set (a := v) end.
  assert (a == agreement Sl Tl n)%Q as Ha.
  { subst a. rewrite Ha_prev_eq. unfold agreement.
    rewrite (prefix_overlap_S Sl Tl n sd td HS HT Hsd Htd).
    replace (S (n - 1)) with n by lia.
    replace (Z.of_nat n + 1)%Z with (Z.of_nat (S n)) by lia.
    rewrite !inject_Z_plus. simpl (inject_Z 0).
    field. split; apply inject_Z_pos_neq0; lia. }
  rewrite (getitem_lookup _ n a) by (apply list_lookup_insert_eq; lia).
  rewrite !bind_Ok.
  rewrite truediv_ok by (apply inject_Z_pos_neq0; lia).
  rewrite bind_Ok.
  rewrite (getitem_lookup ws n _ (Hws n ltac:(lia))), bind_Ok.
  rewrite !setitem_insert by lia.
  assert (length (<[n:=a]> (rbo_A st)) = K) as HlenA' by (by rewrite length_insert).
  assert (∀ d, d < S n → ∃ a', <[n:=a]> (rbo_A st) !! d = Some a'
                               ∧ (a' == agreement Sl Tl d)%Q) as HA'.
  { intros d Hd. destruct (decide (d = n)) as [->|Hne].
    - exists a. split; [apply list_lookup_insert_eq; lia | done].
    - rewrite list_lookup_insert_ne by done. apply HA. lia. }
  destruct (Qeq_bool p 1) eqn:Hp1;
    repeat (rewrite ?bind_Ok, ?setitem_insert by lia);
    (eexists; split; [done|]);
    unfold rbo_inv; cbn [rbo_A rbo_AO rbo_S_running rbo_T_running];
    rewrite !dom_insert_L, HdomS, HdomT,
      (take_S_r Sl n sd Hsd), (take_S_r Tl n td Htd), !list_to_set_snoc_L,
      !length_insert;
    (split_and!; [done | done | set_solver | set_solver | done |]);
    intros d Hd; (destruct (decide (d = n)) as [->|Hne];
      [ eexists; split; [apply list_lookup_insert_eq; lia|]
      | rewrite list_lookup_insert_ne by done; apply HAO; lia ]);
    unfold overlap_through in Hao_prev_eq |- *; rewrite Hp1 in Hao_prev_eq |- *;
    rewrite Hao_prev_eq, Ha.
  - unfold average_overlap. replace (S (n - 1)) with n by lia.
    replace (Z.of_nat n + 1)%Z with (Z.of_nat (S n)) by lia.
    cbn [Qsum]. field. split; apply inject_Z_pos_neq0; lia.
  - unfold weighted_overlap, weight. rewrite Hp1.
    replace (S (n - 1)) with n by lia.
    cbn [Qsum]. ring.
Qed.

(** The arrays after all the turns of the loop. *)
Lemma rbo_loop_inv :
  0 < K →
  ∃ st, (st0 ← rbo_first self (Z.of_nat K) ws;
         for_each (rbo_body self p ws) (range 1 (Z.of_nat K)) st0) = Ok st
        ∧ rbo_inv Sl Tl p K K st.
Proof.
  intros HK.
  destruct (rbo_first_inv HK) as (st0 & -> & Hst0). rewrite bind_Ok.
  destruct (for_each_range (rbo_body self p ws) (rbo_inv Sl Tl p K) (K - 1) 1 st0 Hst0)
    as (st & Hloop & Hst).
  { intros i st Hi Hinv. apply rbo_body_inv; [lia | done]. }
  replace (1 + (K - 1)) with K in * by lia.
  exists st. split; [exact Hloop | done].
Qed.

End RboLoop.

(** ** Arithmetic of the measures *)

Lemma Qpower_succ (p : Q) (n : nat) : (p ^ Z.of_nat (S n) == p ^ Z.of_nat n * p)%Q.
Proof.
  rewrite Nat2Z.inj_succ. unfold Z.succ.
  rewrite Qpower_plus' by lia. by rewrite Qpower_1_r.
Qed.

Lemma Qsum_ext (f g : nat → Q) (n : nat) :
  (∀ i, i < n → (f i == g i)%Q) → (Qsum f n == Qsum g n)%Q.
Proof.
  induction n as [|n IH]; intros Hfg; simpl; [reflexivity|].
  rewrite IH by (intros i Hi; apply Hfg; lia).
  rewrite (Hfg n) by lia. reflexivity.
Qed.

Lemma Qsum_bounds (f : nat → Q) (n : nat) :
  (∀ i, i < n → (0 <= f i ∧ f i <= 1)%Q) →
  (0 <= Qsum f n ∧ Qsum f n <= inject_Z (Z.of_nat n))%Q.
Proof.
  induction n as [|n IH]; intros Hf.
  - simpl. split; apply Qle_refl.
  - destruct IH as [IH0 IH1]; [intros i Hi; apply Hf; lia|].
    destruct (Hf n) as [Hf0 Hf1]; [lia|].
    rewrite Nat2Z.inj_succ. unfold Z.succ. rewrite inject_Z_plus.
    cbn [Qsum]. change (inject_Z 1) with 1%Q. split; lra.
Qed.

Lemma Qsum_ones (n : nat) : (Qsum (λ _, 1) n == inject_Z (Z.of_nat n))%Q.
Proof.
  induction n as [|n IH]; [reflexivity|].
  rewrite Nat2Z.inj_succ. unfold Z.succ. rewrite inject_Z_plus.
  cbn [Qsum]. rewrite IH. reflexivity.
Qed.

Lemma Qsum_zeros (n : nat) : (Qsum (λ _, 0) n == 0)%Q.
Proof. induction n as [|n IH]; [reflexivity|]. cbn [Qsum]. rewrite IH. reflexivity. Qed.

(** The weights of the first [n] depths sum to [1 - p^n]. *)
Lemma Qsum_geometric (p : Q) (n : nat) :
  (Qsum (λ d, (1 - p) * p ^ Z.of_nat d * 1) n == 1 - p ^ Z.of_nat n)%Q.
Proof.
  induction n as [|n IH]; [reflexivity|].
  cbn [Qsum]. rewrite IH, Qpower_succ. ring.
Qed.

Section MeasureFacts.
Context {E : Type} `{Countable E}.
Implicit Types Sl Tl : list E.

Lemma agreement_bounds Sl Tl d :
  (0 <= agreement Sl Tl d ∧ agreement Sl Tl d <= 1)%Q.
Proof.
  unfold agreement. pose proof (prefix_overlap_le Sl Tl (S d)) as Hle.
  assert (0 < inject_Z (Z.of_nat (S d)))%Q as Hpos.
  { change 0%Q with (inject_Z 0). rewrite <- Zlt_Qlt. lia. }
  split.
  - apply Qle_shift_div_l; [done|]. rewrite Qmult_0_l.
    change 0%Q with (inject_Z 0). rewrite <- Zle_Qle. lia.
  - apply Qle_shift_div_r; [done|]. rewrite Qmult_1_l.
    rewrite <- Zle_Qle. lia.
Qed.

Lemma agreement_comm Sl Tl d : agreement Sl Tl d = agreement Tl Sl d.
Proof. unfold agreement. by rewrite prefix_overlap_comm. Qed.

Lemma agreement_same Sl d :
  NoDup Sl → d < length Sl → (agreement Sl Sl d == 1)%Q.
Proof.
  intros HS Hd. unfold agreement. rewrite prefix_overlap_same by (done || lia).
  field. apply inject_Z_pos_neq0. lia.
Qed.

Lemma agreement_disjoint Sl Tl d :
  (∀ x, x ∈ Sl → x ∉ Tl) → (agreement Sl Tl d == 0)%Q.
Proof.
  intros Hdisj. unfold agreement. rewrite prefix_overlap_disjoint by done.
  simpl. field. apply inject_Z_pos_neq0. lia.
Qed.

Lemma average_overlap_bounds Sl Tl n :
  0 < n → (0 <= average_overlap Sl Tl n ∧ average_overlap Sl Tl n <= 1)%Q.
Proof.
  intros Hn. unfold average_overlap.
  destruct (Qsum_bounds (agreement Sl Tl) n) as [H0 H1].
  { intros i _. apply agreement_bounds. }
  assert (0 < inject_Z (Z.of_nat n))%Q as Hpos.
  { change 0%Q with (inject_Z 0). rewrite <- Zlt_Qlt. lia. }
  split.
  - apply Qle_shift_div_l; [done|]. by rewrite Qmult_0_l.
  - apply Qle_shift_div_r; [done|]. by rewrite Qmult_1_l.
Qed.

Lemma overlap_through_same Sl p d :
  NoDup Sl → d < length Sl →
  (overlap_through p Sl Sl d ==
     if Qeq_bool p 1 then 1 else 1 - p ^ Z.of_nat (S d))%Q.
Proof.
  intros HS Hd. unfold overlap_through, average_overlap, weighted_overlap.
  destruct (Qeq_bool p 1).
  - rewrite (Qsum_ext _ (λ _, 1%Q)) by (intros i Hi; apply agreement_same; [done | lia]).
    rewrite Qsum_ones. field. apply inject_Z_pos_neq0. lia.
  - rewrite <- Qsum_geometric. apply Qsum_ext. intros i Hi.
    rewrite agreement_same by (done || lia). reflexivity.
Qed.

Lemma overlap_through_disjoint Sl Tl p d :
  (∀ x, x ∈ Sl → x ∉ Tl) → (overlap_through p Sl Tl d == 0)%Q.
Proof.
  intros Hdisj. unfold overlap_through, average_overlap, weighted_overlap.
  destruct (Qeq_bool p 1).
  - rewrite (Qsum_ext _ (λ _, 0%Q)) by (intros i Hi; by apply agreement_disjoint).
    rewrite Qsum_zeros. field. apply inject_Z_pos_neq0. lia.
  - rewrite (Qsum_ext _ (λ _, 0%Q)); [apply Qsum_zeros|].
    intros i Hi. rewrite agreement_disjoint by done. ring.
Qed.

End MeasureFacts.

(** ** What [rbo] computes *)

Section RboSpec.
Context {E : Type} `{Countable E}.
Implicit Types Sl Tl : list E.

Lemma effective_depth_init Sl Tl self k :
  RankingSimilarity_init Sl Tl = Ok self → Sl ≠ [] → Tl ≠ [] → valid_depth k →
  ∃ K, effective_depth self k = Z.of_nat (S K)
       ∧ S K ≤ length Sl ∧ S K ≤ length Tl.
Proof.
  intros (_ & _ & ->)%init_Ok HSne HTne Hk.
  destruct Sl as [|s0 Sl']; [done|]. destruct Tl as [|t0 Tl']; [done|].
  unfold effective_depth, valid_depth in *. simpl in *.
  destruct k as [k|].
  - exists (Z.to_nat (Z.min (Z.min (Z.of_nat (S (length Sl'))) (Z.of_nat (S (length Tl')))) k) - 1).
    lia.
  - exists (Z.to_nat (Z.min (Z.of_nat (S (length Sl'))) (Z.of_nat (S (length Tl')))) - 1).
    lia.
Qed.

(** For valid lists and parameters the loop ends with the arrays filled
    through the effective depth. *)
Lemma rbo_arrays_inv Sl Tl self k p :
  RankingSimilarity_init Sl Tl = Ok self → Sl ≠ [] → Tl ≠ [] →
  valid_depth k → valid_p p →
  ∃ K st, effective_depth self k = Z.of_nat (S K)
          ∧ S K ≤ length Sl ∧ S K ≤ length Tl
          ∧ rbo_arrays self k p = Ok st
          ∧ rbo_inv Sl Tl p (S K) (S K) st.
Proof.
  intros Hinit HSne HTne Hk Hp.
  destruct (effective_depth_init Sl Tl self k Hinit HSne HTne Hk)
    as (K & HK & HKS & HKT).
  destruct (init_Ok _ _ _ Hinit) as (HS & HT & Hself).
  destruct (rbo_weights_Ok (Z.of_nat (S K)) p Hp) as (ws & Hws & Hwsd).
  rewrite Nat2Z.id in Hwsd.
  destruct (rbo_loop_inv Sl Tl p (S K) ws HS HT HKS HKT Hwsd) as (st & Hst & Hinv);
    [lia|].
  exists K, st. split_and!; try done.
  unfold rbo_arrays. rewrite HK, Hws, bind_Ok. by subst self.
Qed.

Lemma rbo_value Sl Tl self k p ext :
  RankingSimilarity_init Sl Tl = Ok self → Sl ≠ [] → Tl ≠ [] →
  valid_depth k → valid_p p →
  ∃ K v, effective_depth self k = Z.of_nat (S K)
         ∧ S K ≤ length Sl ∧ S K ≤ length Tl
         ∧ rbo self k p ext = Ok v
         ∧ (v == overlap_through p Sl Tl K
                 + (if ext && Qltb p 1
                    then agreement Sl Tl K * p ^ Z.of_nat (S K) else 0))%Q.
Proof.
  intros Hinit HSne HTne Hk Hp.
  destruct (rbo_arrays_inv Sl Tl self k p Hinit HSne HTne Hk Hp)
    as (K & st & HK & HKS & HKT & Hst & HlenA & HlenAO & _ & _ & HA & HAO).
  destruct (HA K) as (a & Ha & Haeq); [lia|].
  destruct (HAO K) as (ao & Hao & Haoeq); [lia|].
  exists K. unfold rbo. rewrite Hst, bind_Ok, HK.
  rewrite (getitem_last _ K ao HlenAO Hao), (getitem_last _ K a HlenA Ha).
  destruct (ext && Qltb p 1).
  - rewrite !bind_Ok. eexists. split_and!; try done. by rewrite Haoeq, Haeq.
  - eexists. split_and!; try done. rewrite Haoeq. ring.
Qed.

End RboSpec.

(** ** Properties of [rbo] *)

Lemma getitem_cases {X} (l : list X) (i : Z) :
  (∃ x, getitem l i = Ok x) ∨ getitem l i = Raise IndexError.
Proof.
  unfold getitem. destruct (_ <? 0)%Z; [by right|].
  destruct (l !! _); [left; eauto | by right].
Qed.

Section RboProperties.
Context {E : Type} `{Countable E}.
Implicit Types Sl Tl : list E.

(** The score of identical lists in exact arithmetic: 1 when [p == 1] or
    when [ext] is set, and [1 - p^k'] with [0 < p < 1] and [ext] unset,
    where [k'] is the effective depth.  For [p < 1] the floats of the code
    agree with this up to rounding only. *)
Lemma rbo_same_lists_value Sl self k p ext :
  RankingSimilarity_init Sl Sl = Ok self → Sl ≠ [] →
  valid_depth k → valid_p p →
  ∃ v, rbo self k p ext = Ok v
       ∧ (v == if Qeq_bool p 1 || ext then 1
               else 1 - p ^ effective_depth self k)%Q.
Proof.
  intros Hinit HSne Hk Hp.
  destruct (rbo_value Sl Sl self k p ext Hinit HSne HSne Hk Hp)
    as (K & v & HK & HKS & _ & Hv & Hveq).
  destruct (init_Ok _ _ _ Hinit) as (HS & _ & _).
  exists v. split; [done|]. rewrite Hveq, HK.
  pose proof (overlap_through_same Sl p K HS ltac:(lia)) as Hao.
  pose proof (agreement_same Sl K HS ltac:(lia)) as Ha.
  destruct (Qeq_bool p 1) eqn:Hp1.
  - apply Qeq_bool_iff in Hp1.
    assert (Qltb p 1 = false) as -> by (apply Qltb_ge; rewrite Hp1; apply Qle_refl).
    rewrite andb_false_r, Hao. cbn [orb]. ring.
  - destruct Hp as [Hp|[_ Hp]]; [apply Qeq_bool_iff in Hp; congruence|].
    apply Qltb_lt in Hp. rewrite Hp, andb_true_r.
    destruct ext; cbn [orb]; rewrite Hao, ?Ha; ring.
Qed.

(** C1, as amended: on identical lists without duplicates, of length at
    least 1, [rbo] with [p == 1] returns 1 at every valid depth, with [ext]
    set or not.  No rounding is involved in this case: every weight is 1
    and every quotient that the loop forms is [(d+1) / (d+1)]. *)
Theorem rbo_identical_lists Sl self k p ext :
  RankingSimilarity_init Sl Sl = Ok self → Sl ≠ [] →
  valid_depth k → (p == 1)%Q →
  ∃ v, rbo self k p ext = Ok v ∧ (v == 1)%Q.
Proof.
  intros Hinit HSne Hk Hp1.
  destruct (rbo_value Sl Sl self k p ext Hinit HSne HSne Hk (or_introl Hp1))
    as (K & v & HK & HKS & _ & Hv & Hveq).
  destruct (init_Ok _ _ _ Hinit) as (HS & _ & _).
  exists v. split; [done|]. rewrite Hveq.
  assert (Qltb p 1 = false) as -> by (apply Qltb_ge; rewrite Hp1; apply Qle_refl).
  rewrite andb_false_r, (overlap_through_same Sl p K HS ltac:(lia)).
  apply Qeq_bool_iff in Hp1. rewrite Hp1. ring.
Qed.

(** C6: on lists without duplicates that share no item, [rbo] without
    extrapolation returns 0 at every valid depth and for every valid [p];
    every entry of [A] and of [AO] is 0. *)
Theorem rbo_disjoint_lists Sl Tl self k p :
  RankingSimilarity_init Sl Tl = Ok self → Sl ≠ [] → Tl ≠ [] →
  (∀ x, x ∈ Sl → x ∉ Tl) →
  valid_depth k → valid_p p →
  ∃ st v, rbo_arrays self k p = Ok st
          ∧ Forall (λ a, a == 0)%Q (rbo_A st)
          ∧ Forall (λ ao, ao == 0)%Q (rbo_AO st)
          ∧ rbo self k p false = Ok v ∧ (v == 0)%Q.
Proof.
  intros Hinit HSne HTne Hdisj Hk Hp.
  destruct (rbo_arrays_inv Sl Tl self k p Hinit HSne HTne Hk Hp)
    as (K & st & HK & HKS & HKT & Hst & HlenA & HlenAO & _ & _ & HA & HAO).
  destruct (rbo_value Sl Tl self k p false Hinit HSne HTne Hk Hp)
    as (K' & v & HK' & _ & _ & Hv & Hveq).
  exists st, v. split_and!; try done.
  - apply Forall_lookup. intros d a Hd.
    destruct (HA d) as (a' & Ha' & Haeq).
    { apply lookup_lt_Some in Hd. lia. }
    assert (a' = a) as -> by congruence.
    by rewrite Haeq, agreement_disjoint.
  - apply Forall_lookup. intros d ao Hd.
    destruct (HAO d) as (ao' & Hao' & Haoeq).
    { apply lookup_lt_Some in Hd. lia. }
    assert (ao' = ao) as -> by congruence.
    by rewrite Haoeq, overlap_through_disjoint.
  - rewrite Hveq, overlap_through_disjoint by done. simpl. ring.
Qed.

(** C7: with [p == 1], [rbo] returns the average overlap: the mean over the
    depths [d < k'] of the agreement [A[d]], the size of the intersection of
    the two prefixes of length [d+1] divided by [d+1]; the value lies in
    [[0,1]]. *)
Theorem rbo_average_overlap Sl Tl self k p ext :
  RankingSimilarity_init Sl Tl = Ok self → Sl ≠ [] → Tl ≠ [] →
  valid_depth k → (p == 1)%Q →
  ∃ st v, rbo_arrays self k p = Ok st ∧ rbo self k p ext = Ok v
    ∧ (v == Qsum (λ d, default 0 (rbo_A st !! d)) (length (rbo_A st))
            / inject_Z (Z.of_nat (length (rbo_A st))))%Q
    ∧ (v == average_overlap Sl Tl (Z.to_nat (effective_depth self k)))%Q
    ∧ (0 <= v ∧ v <= 1)%Q.
Proof.
  intros Hinit HSne HTne Hk Hp1.
  assert (valid_p p) as Hp by (by left).
  destruct (rbo_arrays_inv Sl Tl self k p Hinit HSne HTne Hk Hp)
    as (K & st & HK & HKS & HKT & Hst & HlenA & HlenAO & _ & _ & HA & HAO).
  destruct (rbo_value Sl Tl self k p ext Hinit HSne HTne Hk Hp)
    as (K' & v & HK' & _ & _ & Hv & Hveq).
  assert (K' = K) as -> by lia.
  assert (v == average_overlap Sl Tl (S K))%Q as Hv'.
  { rewrite Hveq. unfold overlap_through.
    assert (Qltb p 1 = false) as -> by (apply Qltb_ge; rewrite Hp1; apply Qle_refl).
    apply Qeq_bool_iff in Hp1. rewrite Hp1, andb_false_r. ring. }
  exists st, v. rewrite HK, Nat2Z.id, HlenA. split_and!; try done.
  - rewrite Hv'. unfold average_overlap.
    rewrite (Qsum_ext (λ d, default 0%Q (rbo_A st !! d)) (agreement Sl Tl));
      [reflexivity|].
    intros i Hi. destruct (HA i Hi) as (a & -> & Ha). done.
  - rewrite Hv'. apply average_overlap_bounds. lia.
  - rewrite Hv'. apply average_overlap_bounds. lia.
Qed.


Lemma effective_depth_nonpos Sl Tl self k :
  RankingSimilarity_init Sl Tl = Ok self →
  (effective_depth self k <= 0)%Z
  ↔ Sl = [] ∨ Tl = [] ∨ ∃ k0, k = Some k0 ∧ (k0 <= 0)%Z.
Proof.
  intros (_ & _ & ->)%init_Ok. unfold effective_depth. simpl.
  destruct Sl as [|s0 Sl'], Tl as [|t0 Tl'], k as [k0|]; simpl; split;
    try (intros; lia); try (intros; by eauto).
  - intros Hk. right. right. exists k0. split; [done | lia].
  - intros [?|[?|(k1 & [= <-] & Hk1)]]; try done. lia.
  - intros [?|[?|(k1 & ? & _)]]; done.
Qed.

(** C8, as amended: when the effective depth is not positive, [rbo] raises
    and returns nothing.  The exception is [IndexError], raised by the
    subscripts at depth 0, when [p] is valid; it is [AssertionError] when
    [p] is not 1 and lies outside (0,1).  No check of the depth is made. *)
Theorem rbo_zero_depth Sl Tl self k p ext :
  RankingSimilarity_init Sl Tl = Ok self →
  (effective_depth self k <= 0)%Z →
  rbo self k p ext =
    Raise (if Qeq_bool p 1 || (Qltb 0 p && Qltb p 1)
           then IndexError else AssertionError).
Proof.
  intros (_ & _ & ->)%init_Ok Hk. unfold rbo, rbo_arrays.
  set (self := {| self_S := Sl |}) in *.
  assert (∀ ws, rbo_first self (effective_depth self k) ws = Raise IndexError)
    as Hfirst.
  { intros ws. unfold rbo_first. rewrite range_nil by lia.
    destruct (getitem_cases (self_S self) 0) as [[s0 ->] | ->]; [rewrite bind_Ok | done].
    destruct (getitem_cases (self_T self) 0) as [[t0 ->] | ->]; [rewrite bind_Ok | done].
    by rewrite fmap_nil, setitem_nil. }
  unfold rbo_weights.
  destruct (Qeq_bool p 1); cbn [orb].
  - by rewrite bind_Ok, Hfirst.
  - destruct (Qltb 0 p && Qltb p 1); [|done].
    cbn [assert]. by rewrite !bind_Ok, Hfirst.
Qed.

End RboProperties.

(** ** Exchanging the two lists *)

Lemma for_each_sim {St} (f : St → St) (body1 body2 : Z → St → result St)
    (ds : list Z) (st : St) :
  (∀ d st, d ∈ ds → body2 d (f st) = f <$> body1 d st) →
  for_each body2 ds (f st) = f <$> for_each body1 ds st.
Proof.
  revert st. induction ds as [|d ds IH]; intros st Hsim; [done|].
  simpl. rewrite Hsim by set_solver.
  destruct (body1 d st) as [st1|e]; [|done].
  simpl. apply IH. intros d' st' Hd'. apply Hsim. set_solver.
Qed.

Ltac case_getitem l i :=
  let x := fresh "x" in
  destruct (getitem_cases l i) as [[x ->] | ->];
  rewrite ?bind_Ok, ?bind_Raise; try done.

Section Symmetry.
Context {E : Type} `{Countable E}.
Implicit Types Sl Tl : list E.

Lemma rbo_first_swap (self self' : RankingSimilarity E) k ws :
  self_S self' = self_T self → self_T self' = self_S self →
  rbo_first self' k ws = rbo_swap <$> rbo_first self k ws.
Proof.
  intros HS' HT'. unfold rbo_first. rewrite HS', HT'.
  case_getitem (self_T self) 0%Z; case_getitem (self_S self) 0%Z.
  rewrite (bool_decide_ext (x = x0) (x0 = x)) by done.
  destruct (setitem _ 0 _) as [A|e]; [rewrite !bind_Ok | done].
  destruct (if bool_decide (x0 = x) then _ else _) as [ao0|e]; [rewrite !bind_Ok | done].
  by destruct (setitem _ 0 ao0) as [AO|e].
Qed.

Lemma rbo_body_swap (self self' : RankingSimilarity E) p ws d st :
  self_S self' = self_T self → self_T self' = self_S self →
  rbo_body self' p ws d (rbo_swap st) = rbo_swap <$> rbo_body self p ws d st.
Proof.
  intros HS' HT'. unfold rbo_body. rewrite HS', HT'. cbn [rbo_swap rbo_A rbo_AO rbo_S_running rbo_T_running].
  case_getitem (self_T self) d; case_getitem (self_S self) d.
  rewrite (bool_decide_ext (x = x0) (x0 = x)) by done.
  set (i1 := indicator (bool_decide (is_Some (rbo_S_running st !! x)))).
  set (i2 := indicator (bool_decide (is_Some (rbo_T_running st !! x0)))).
  set (i3 := indicator (bool_decide (x0 = x))).
  replace (0 + i1 + i2 + i3)%Z with (0 + i2 + i1 + i3)%Z by lia.
  destruct (getitem (rbo_A st) (d - 1)) as [a_prev|e]; [rewrite !bind_Ok | done].
  destruct (truediv _ _) as [a|e]; [rewrite !bind_Ok | done].
  destruct (setitem (rbo_A st) d a) as [A|e]; [rewrite !bind_Ok | done].
  by destruct (if Qeq_bool p 1 then _ else _) as [AO|e].
Qed.

(** [rbo] does not depend on the order of the two lists. *)
Lemma rbo_swap_lists (self self' : RankingSimilarity E) k p ext :
  self_S self' = self_T self → self_T self' = self_S self →
  N_S self' = N_T self → N_T self' = N_S self →
  rbo self' k p ext = rbo self k p ext.
Proof.
  intros HS' HT' HNS HNT.
  assert (effective_depth self' k = effective_depth self k) as Hk.
  { unfold effective_depth. rewrite HNS, HNT. destruct k; lia. }
  assert (rbo_arrays self' k p = rbo_swap <$> rbo_arrays self k p) as Harr.
  { unfold rbo_arrays. rewrite Hk.
    destruct (rbo_weights _ p) as [ws|e]; [rewrite !bind_Ok | done].
    rewrite (rbo_first_swap self self') by done.
    destruct (rbo_first self _ ws) as [st0|e]; [|done].
    cbn [fmap result_fmap]. rewrite !bind_Ok.
    apply for_each_sim. intros d st _. by apply rbo_body_swap. }
  unfold rbo. rewrite Harr, Hk.
  by destruct (rbo_arrays self k p) as [st|e].
Qed.

Lemma rbo_ext_first_swap (Ss Ls : list E) l p :
  rbo_ext_first Ls Ss l p = ext_swap <$> rbo_ext_first Ss Ls l p.
Proof.
  unfold rbo_ext_first.
  case_getitem Ls 0%Z; case_getitem Ss 0%Z.
  rewrite (bool_decide_ext (x = x0) (x0 = x)) by done.
  destruct (setitem _ 0 _) as [X|e]; [rewrite !bind_Ok | done].
  destruct (getitem X 0) as [x0'|e]; [rewrite !bind_Ok | done].
  destruct (setitem _ 0 _) as [A|e]; [rewrite !bind_Ok | done].
  destruct (getitem A 0) as [a0|e]; [rewrite !bind_Ok | done].
  by destruct (setitem _ 0 _) as [r|e].
Qed.

(** While both lists still have items, a turn of the loop of [rbo_ext]
    treats them alike. *)
Lemma rbo_ext_body_swap (Ss Ls : list E) s p d st :
  (d < s)%Z →
  rbo_ext_body Ls Ss s p d (ext_swap st) = ext_swap <$> rbo_ext_body Ss Ls s p d st.
Proof.
  intros Hd. unfold rbo_ext_body.
  assert ((d <? s)%Z = true) as -> by lia.
  cbn [ext_swap ext_X ext_A ext_rbo ext_S_running ext_L_running ext_disjoint].
  case_getitem Ls d; case_getitem Ss d.
  rewrite (bool_decide_ext (x = x0) (x0 = x)) by done.
  set (i1 := indicator (bool_decide (x ∈ {[x0]} ∪ ext_S_running st))).
  set (i2 := indicator (bool_decide (x0 ∈ {[x]} ∪ ext_L_running st))).
  replace (i1 + i2)%Z with (i2 + i1)%Z by lia.
  set (n1 := Z.of_nat (size ({[x]} ∪ ext_L_running st))).
  set (n2 := Z.of_nat (size ({[x0]} ∪ ext_S_running st))).
  replace (n1 + n2)%Z with (n2 + n1)%Z by lia.
  destruct (getitem (ext_X st) (d - 1)) as [x_prev|e]; [rewrite !bind_Ok | done].
  destruct (setitem (ext_X st) d _) as [X|e]; [rewrite !bind_Ok | done].
  destruct (getitem X d) as [x_d|e]; [rewrite !bind_Ok | done].
  destruct (truediv _ _) as [a|e]; [rewrite !bind_Ok | done].
  destruct (setitem (ext_A st) d a) as [A|e]; [rewrite !bind_Ok | done].
  destruct (getitem (ext_rbo st) (d - 1)) as [r_prev|e]; [rewrite !bind_Ok | done].
  destruct (getitem A d) as [a_d|e]; [rewrite !bind_Ok | done].
  by destruct (setitem (ext_rbo st) d _) as [r|e].
Qed.

Lemma elem_of_range (a b d : Z) : d ∈ range a b → (a <= d < b)%Z.
Proof. unfold range. rewrite elem_of_seqZ. lia. Qed.

(** [rbo_ext] does not depend on the order of the two lists. *)
Lemma rbo_ext_swap_lists (self self' : RankingSimilarity E) p :
  self_S self' = self_T self → self_T self' = self_S self →
  rbo_ext self' p = rbo_ext self p.
Proof.
  intros HS' HT'.
  assert (rbo_ext_arrays self' p = rbo_ext_arrays self p
          ∨ rbo_ext_arrays self' p = ext_swap <$> rbo_ext_arrays self p) as Harr.
  { unfold rbo_ext_arrays, short_long. rewrite HS', HT'.
    destruct (decide (length (self_T self) < length (self_S self))) as [Hlt|Hge].
    - left. rewrite (bool_decide_eq_true_2 _ Hlt).
      by rewrite bool_decide_eq_false_2 by lia.
    - rewrite (bool_decide_eq_false_2 _ Hge).
      destruct (decide (length (self_S self) < length (self_T self))) as [Hlt|Hge'].
      + left. by rewrite (bool_decide_eq_true_2 _ Hlt).
      + right. rewrite (bool_decide_eq_false_2 _ Hge').
        assert (length (self_T self) = length (self_S self)) as Hlen by lia.
        rewrite Hlen, rbo_ext_first_swap.
        destruct (rbo_ext_first _ _ _ p) as [st0|e]; [|done].
        cbn [fmap result_fmap]. rewrite !bind_Ok.
        apply for_each_sim. intros d st Hd%elem_of_range.
        apply rbo_ext_body_swap. lia. }
  unfold rbo_ext. destruct Harr as [-> | ->]; [done|].
  by destruct (rbo_ext_arrays self p) as [st|e].
Qed.

(** C4: for two lists without duplicates, [rbo] and [rbo_ext] give the same
    result on [(S, T)] and on [(T, S)], whatever the parameters. *)
Theorem rbo_symmetric Sl Tl self self' k p ext :
  RankingSimilarity_init Sl Tl = Ok self →
  RankingSimilarity_init Tl Sl = Ok self' →
  rbo self k p ext = rbo self' k p ext ∧ rbo_ext self p = rbo_ext self' p.
Proof.
  intros (_ & _ & ->)%init_Ok (_ & _ & ->)%init_Ok. split; symmetry.
  - by apply rbo_swap_lists.
  - by apply rbo_ext_swap_lists.
Qed.

End Symmetry.

(** ** The loop of [rbo_ext] *)

Section ExtLoop.
Context {E : Type} `{Countable E}.
Variables (Ss Ls : list E) (p : Q).
Hypothesis Hs1 : 0 < length Ss.
Hypothesis Hsl : length Ss ≤ length Ls.

Lemma size_union_singleton_pos (x : E) (Y : gset E) : 0 < size ({[x]} ∪ Y).
Proof.
  pose proof (subseteq_size ({[x]} : gset E) ({[x]} ∪ Y)) as Hle.
  rewrite size_singleton in Hle. apply Hle. set_solver.
Qed.

Lemma rbo_ext_first_inv :
  ∃ st, rbo_ext_first Ss Ls (Z.of_nat (length Ls)) p = Ok st ∧ ext_inv Ss Ls p 1 st.
Proof.
  unfold rbo_ext_first.
  destruct (lookup_lt_is_Some_2 Ss 0) as [s0 Hs0]; [lia|].
  destruct (lookup_lt_is_Some_2 Ls 0) as [l0 Hl0]; [lia|].
  rewrite (getitem_0 Ss s0 Hs0), bind_Ok.
  rewrite (getitem_0 Ls l0 Hl0), bind_Ok.
  rewrite setitem_0 by (rewrite length_range_fmap; lia). rewrite bind_Ok.
  rewrite (getitem_0 _ (indicator (bool_decide (s0 = l0))))
    by (apply list_lookup_insert_eq; rewrite length_range_fmap; lia).
  rewrite bind_Ok.
  rewrite setitem_0 by (rewrite length_range_fmap; lia). rewrite bind_Ok.
  rewrite (getitem_0 _ (inject_Z (indicator (bool_decide (s0 = l0)))))
    by (apply list_lookup_insert_eq; rewrite length_range_fmap; lia).
  rewrite bind_Ok.
  rewrite setitem_0 by (rewrite length_range_fmap; lia). rewrite bind_Ok.
  eexists. split; [done|].
  unfold ext_inv.
  cbn [ext_X ext_A ext_rbo ext_S_running ext_L_running ext_disjoint ext_term].
  rewrite !length_insert, !length_range_fmap, Nat2Z.id.
  split_and!; try done; [lia|].
  intros HS HL _.
  rewrite (take_S_r Ss 0 s0 Hs0), (take_S_r Ls 0 l0 Hl0), !take_0.
  assert (Z.of_nat (prefix_overlap Ss Ls 1) = indicator (bool_decide (s0 = l0))) as Hov.
  { rewrite (prefix_overlap_S Ss Ls 0 s0 l0 HS HL Hs0 Hl0).
    unfold prefix_overlap. rewrite !take_0.
    rewrite !bool_decide_eq_false_2 by set_solver.
    replace (list_to_set [] ∩ list_to_set [] : gset E) with (∅ : gset E) by set_solver.
    rewrite size_empty. simpl. lia. }
  assert (agreement Ss Ls 0 == inject_Z (indicator (bool_decide (s0 = l0))))%Q as Hag.
  { unfold agreement. rewrite Hov. field. }
  split_and!; try done.
  - intros d Hd. assert (d = 0) as -> by lia.
    rewrite Hov. apply list_lookup_insert_eq. rewrite length_range_fmap. lia.
  - intros d Hd. assert (d = 0) as -> by lia.
    eexists. split; [apply list_lookup_insert_eq; rewrite length_range_fmap; lia|].
    by rewrite Hag.
  - intros d Hd. assert (d = 0) as -> by lia.
    eexists. split; [apply list_lookup_insert_eq; rewrite length_range_fmap; lia|].
    unfold weighted_overlap. cbn [Qsum]. rewrite Hag. simpl (p ^ _)%Q. ring.
  - lia.
Qed.

(** One turn of the loop of [rbo_ext] succeeds and keeps the invariant. *)
Lemma rbo_ext_body_inv (n : nat) (st : ext_state E) :
  0 < n < length Ls → ext_inv Ss Ls p n st →
  ∃ st', rbo_ext_body Ss Ls (Z.of_nat (length Ss)) p (Z.of_nat n) st = Ok st'
         ∧ ext_inv Ss Ls p (S n) st'.
Proof.
  intros Hn (HlX & HlA & Hlr & Hterm & Hstrong).
  destruct (lookup_lt_is_Some_2 Ls n) as [ld Hld]; [lia|].
  destruct (lookup_lt_is_Some_2 (ext_X st) (n - 1)) as [x_prev Hx_prev]; [lia|].
  destruct (lookup_lt_is_Some_2 (ext_rbo st) (n - 1)) as [r_prev Hr_prev]; [lia|].
  unfold rbo_ext_body.
  replace (Z.of_nat n - 1)%Z with (Z.of_nat (n - 1)) by lia.
  destruct (Z.ltb_spec (Z.of_nat n) (Z.of_nat (length Ss))) as [Hlt|Hge].
  - (* both lists still have items *)
    destruct (lookup_lt_is_Some_2 Ss n) as [sd Hsd]; [lia|].
    rewrite (getitem_lookup Ss n sd Hsd), bind_Ok.
    rewrite (getitem_lookup Ls n ld Hld), bind_Ok.
    rewrite (getitem_lookup _ _ _ Hx_prev), bind_Ok.
    rewrite setitem_insert by lia. rewrite bind_Ok.
    match goal with |- context [<[n := ?v]> (ext_X st)] => set (x := v) end.
    rewrite (getitem_lookup _ n x) by (apply list_lookup_insert_eq; lia).
    rewrite bind_Ok.
    set (S' := {[sd]} ∪ ext_S_running st). set (L' := {[ld]} ∪ ext_L_running st).
    rewrite truediv_ok.
    2:{ apply inject_Z_pos_neq0.
        pose proof (size_union_singleton_pos sd (ext_S_running st)).
        pose proof (size_union_singleton_pos ld (ext_L_running st)).
        subst S' L'. lia. }
    rewrite bind_Ok.
    rewrite setitem_insert by lia. rewrite bind_Ok.
    match goal with |- context [<[n := ?v]> (ext_A st)] => set (a := v) end.
    rewrite (getitem_lookup _ _ _ Hr_prev), bind_Ok.
    rewrite (getitem_lookup _ n a) by (apply list_lookup_insert_eq; lia).
    rewrite bind_Ok.
    rewrite setitem_insert by lia. rewrite !bind_Ok.
    eexists. split; [done|].
    unfold ext_inv.
    cbn [ext_X ext_A ext_rbo ext_S_running ext_L_running ext_disjoint ext_term].
    rewrite !length_insert. split_and!; try done.
    intros HS HL HSn.
    destruct Hstrong as (HSr & HLr & Hdis & HX & HA & Hr & _); [done | done | lia |].
    assert (S' = list_to_set (take (S n) Ss)) as HS'.
    { subst S'. rewrite HSr, (take_S_r Ss n sd Hsd), list_to_set_snoc_L. set_solver. }
    assert (L' = list_to_set (take (S n) Ls)) as HL'.
    { subst L'. rewrite HLr, (take_S_r Ls n ld Hld), list_to_set_snoc_L. set_solver. }
    assert (x = Z.of_nat (prefix_overlap Ss Ls (S n))) as Hx.
    { subst x. rewrite (prefix_overlap_S Ss Ls n sd ld HS HL Hsd Hld).
      pose proof (HX (n - 1) ltac:(lia)) as Hx'.
      replace (S (n - 1)) with n in Hx' by lia.
      assert (x_prev = Z.of_nat (prefix_overlap Ss Ls n)) as -> by congruence.
      pose proof (NoDup_take_fresh Ss n sd HS Hsd) as HsdS.
      pose proof (NoDup_take_fresh Ls n ld HL Hld) as HldL.
      rewrite HSr, HLr. unfold indicator.
      destruct (decide (sd = ld)) as [->|Hne].
      - rewrite (bool_decide_eq_true_2 (ld = ld)) by done.
        rewrite !bool_decide_eq_false_2 by done. lia.
      - rewrite (bool_decide_eq_false_2 (sd = ld)) by done.
        rewrite (bool_decide_ext (sd ∈ {[ld]} ∪ list_to_set (take n Ls)) (sd ∈ take n Ls))
          by set_solver.
        rewrite (bool_decide_ext (ld ∈ {[sd]} ∪ list_to_set (take n Ss)) (ld ∈ take n Ss))
          by set_solver.
        lia. }
    assert (a == agreement Ss Ls n)%Q as Ha.
    { subst a. rewrite Hx, HS', HL'.
      rewrite !size_list_to_set by (by apply NoDup_take_prefix).
      rewrite !length_take. unfold agreement.
      replace (S n `min` length Ss) with (S n) by lia.
      replace (S n `min` length Ls) with (S n) by lia.
      rewrite inject_Z_plus. field. split.
      - apply inject_Z_pos_neq0. lia.
      - rewrite <- inject_Z_plus. apply inject_Z_pos_neq0. lia. }
    split_and!; try done.
    + intros d Hd. destruct (decide (d = n)) as [->|Hne].
      * rewrite <- Hx. apply list_lookup_insert_eq. lia.
      * rewrite list_lookup_insert_ne by done. apply HX. lia.
    + intros d Hd. destruct (decide (d = n)) as [->|Hne].
      * exists a. split; [apply list_lookup_insert_eq; lia | done].
      * rewrite list_lookup_insert_ne by done. apply HA. lia.
    + intros d Hd. destruct (decide (d = n)) as [->|Hne].
      * eexists. split; [apply list_lookup_insert_eq; lia |].
        destruct (Hr (n - 1)) as (r' & Hr' & Hr'eq); [lia|].
        assert (r' = r_prev) as -> by congruence.
        rewrite Hr'eq, Ha. replace (S (n - 1)) with n by lia.
        unfold weighted_overlap. cbn [Qsum]. ring.
      * rewrite list_lookup_insert_ne by done. apply Hr. lia.
    + intros _. eexists. split; [done|].
      rewrite Ha. replace (S n - 1) with n by lia.
      replace (Z.of_nat n + 1)%Z with (Z.of_nat (S n)) by lia. ring.
  - (* the short list is exhausted *)
    rewrite (getitem_lookup Ls n ld Hld), bind_Ok.
    rewrite (getitem_lookup _ _ _ Hx_prev), bind_Ok.
    rewrite setitem_insert by lia. rewrite bind_Ok.
    match goal with |- context [<[n := ?v]> (ext_X st)] => set (x := v) end.
    rewrite (getitem_lookup _ n x) by (apply list_lookup_insert_eq; lia).
    rewrite !bind_Ok.
    rewrite truediv_ok by (apply inject_Z_pos_neq0; lia).
    rewrite bind_Ok.
    rewrite setitem_insert by lia. rewrite bind_Ok.
    match goal with |- context [<[n := ?v]> (ext_A st)] => set (a := v) end.
    rewrite (getitem_lookup _ _ _ Hr_prev), bind_Ok.
    rewrite (getitem_lookup _ n a) by (apply list_lookup_insert_eq; lia).
    rewrite bind_Ok.
    rewrite setitem_insert by lia. rewrite bind_Ok.
    destruct (lookup_lt_is_Some_2 (<[n:=x]> (ext_X st)) (length Ss - 1)) as [X_s HX_s].
    { rewrite length_insert. lia. }
    replace (Z.of_nat (length Ss) - 1)%Z with (Z.of_nat (length Ss - 1)) by lia.
    rewrite (getitem_lookup _ _ _ HX_s), !bind_Ok.
    repeat first [ rewrite bind_Ok
                 | rewrite truediv_ok by (apply inject_Z_pos_neq0; lia) ].
    eexists. split; [done|].
    unfold ext_inv.
    cbn [ext_X ext_A ext_rbo ext_S_running ext_L_running ext_disjoint ext_term].
    rewrite !length_insert. split_and!; try done.
    intros _ _ HSn. lia.
Qed.

(** The state after all the turns of the loop. *)
Lemma rbo_ext_loop_inv :
  ∃ st, (st0 ← rbo_ext_first Ss Ls (Z.of_nat (length Ls)) p;
         for_each (rbo_ext_body Ss Ls (Z.of_nat (length Ss)) p)
                  (range 1 (Z.of_nat (length Ls))) st0) = Ok st
        ∧ ext_inv Ss Ls p (length Ls) st.
Proof.
  destruct rbo_ext_first_inv as (st0 & -> & Hst0). rewrite bind_Ok.
  destruct (for_each_range (rbo_ext_body Ss Ls (Z.of_nat (length Ss)) p)
              (ext_inv Ss Ls p) (length Ls - 1) 1 st0 Hst0)
    as (st & Hloop & Hst).
  { intros i st Hi Hinv. apply rbo_ext_body_inv; [lia | done]. }
  replace (1 + (length Ls - 1)) with (length Ls) in * by lia.
  exists st. split; [exact Hloop | done].
Qed.

End ExtLoop.

(** ** Properties of [rbo_ext] *)

Section ExtProperties.
Context {E : Type} `{Countable E}.
Implicit Types Sl Tl : list E.

Lemma short_long_spec (self : RankingSimilarity E) :
  ∃ Ss Ls, short_long self = (Ss, Ls) ∧ length Ss ≤ length Ls
    ∧ length Ss = length (self_S self) `min` length (self_T self)
    ∧ length Ls = length (self_S self) `max` length (self_T self).
Proof.
  unfold short_long. case_bool_decide; eexists _, _; (split; [done|]); lia.
Qed.

(** With an item in each list and two in the longer one, the loop of
    [rbo_ext] ends normally, [ext_term] is assigned and a score is
    returned. *)
Lemma rbo_ext_Ok (self : RankingSimilarity E) p :
  0 < length (self_S self) `min` length (self_T self) →
  2 ≤ length (self_S self) `max` length (self_T self) →
  ∃ st r e, rbo_ext_arrays self p = Ok st
    ∧ ext_rbo st !! (length (ext_rbo st) - 1) = Some r
    ∧ ext_term st = Some e
    ∧ rbo_ext self p = Ok (r + ext_disjoint st + e)%Q
    ∧ ∀ Ss Ls, short_long self = (Ss, Ls) → ext_inv Ss Ls p (length Ls) st.
Proof.
  intros Hmin Hmax.
  destruct (short_long_spec self) as (Ss & Ls & Hsl & Hle & HSs & HLs).
  destruct (rbo_ext_loop_inv Ss Ls p) as (st & Hst & Hinv); [lia | lia |].
  pose proof Hinv as (HlX & HlA & Hlr & Hterm & _).
  destruct Hterm as [e He]; [lia|].
  destruct (lookup_lt_is_Some_2 (ext_rbo st) (length (ext_rbo st) - 1)) as [r Hr]; [lia|].
  assert (rbo_ext_arrays self p = Ok st) as Harr.
  { unfold rbo_ext_arrays. by rewrite Hsl. }
  exists st, r, e. split_and!; try done.
  - unfold rbo_ext. rewrite Harr, bind_Ok.
    rewrite (getitem_last _ (length (ext_rbo st) - 1) r) by (done || lia).
    by rewrite bind_Ok, He.
  - intros Ss' Ls' Heq. rewrite Hsl in Heq. by injection Heq as <- <-.
Qed.

Lemma rbo_ext_empty (self : RankingSimilarity E) p :
  length (self_S self) `min` length (self_T self) = 0 →
  rbo_ext self p = Raise IndexError.
Proof.
  intros Hmin.
  destruct (short_long_spec self) as (Ss & Ls & Hsl & Hle & HSs & HLs).
  unfold rbo_ext, rbo_ext_arrays. rewrite Hsl.
  destruct Ss as [|s0 Ss']; [|simpl in *; lia].
  unfold rbo_ext_first. by rewrite getitem_nil.
Qed.

Lemma rbo_ext_singletons (self : RankingSimilarity E) p :
  length (self_S self) = 1 → length (self_T self) = 1 →
  rbo_ext self p = Raise UnboundLocalError.
Proof.
  intros HS HT. unfold rbo_ext, rbo_ext_arrays, short_long.
  rewrite HS, HT. rewrite bool_decide_eq_false_2 by lia.
  destruct (self_S self) as [|s0 [|]]; [done | | done].
  destruct (self_T self) as [|t0 [|]]; [done | | done].
  unfold rbo_ext_first. cbn. by destruct (bool_decide (s0 = t0)).
Qed.

(** C10: when both lists hold a single item, [rbo_ext] raises
    [UnboundLocalError] instead of returning a score (and only then);
    it returns a score exactly when both lists are non-empty and the longer
    one has at least 2 items. *)
Theorem rbo_ext_unbound_term (self : RankingSimilarity E) p :
  (rbo_ext self p = Raise UnboundLocalError
   ↔ length (self_S self) = 1 ∧ length (self_T self) = 1)
  ∧ ((∃ v, rbo_ext self p = Ok v)
     ↔ 0 < length (self_S self) `min` length (self_T self)
       ∧ 2 ≤ length (self_S self) `max` length (self_T self)).
Proof.
  destruct (decide (length (self_S self) `min` length (self_T self) = 0)) as [H0|H0].
  { rewrite (rbo_ext_empty self p H0). split; split; try done; try lia.
    by intros [v ?]. }
  destruct (decide (2 ≤ length (self_S self) `max` length (self_T self))) as [H2|H2].
  { destruct (rbo_ext_Ok self p) as (st & r & e & _ & _ & _ & -> & _); [lia | done |].
    split; split; try done; try lia; eauto. }
  rewrite (rbo_ext_singletons self p) by lia.
  split; split; try done; try lia. by intros [v ?].
Qed.

(** On two lists of the same length, at least 2, [rbo_ext] returns the
    weighted overlap through the whole length plus the extrapolation term
    built from the last agreement. *)
Lemma rbo_ext_equal_length Sl Tl self p :
  RankingSimilarity_init Sl Tl = Ok self →
  length Sl = length Tl → 2 ≤ length Sl →
  ∃ v, rbo_ext self p = Ok v
    ∧ (v == weighted_overlap p Sl Tl (length Sl)
            + agreement Sl Tl (length Sl - 1) * p ^ Z.of_nat (length Sl))%Q.
Proof.
  intros (HS & HT & ->)%init_Ok Hlen Hl.
  set (self := {| self_S := Sl |}).
  destruct (rbo_ext_Ok self p) as (st & r & e & _ & Hr & He & Hv & Hinv);
    [simpl; lia.. |].
  specialize (Hinv Sl Tl). destruct Hinv as (_ & _ & Hlr & _ & Hstrong).
  { unfold short_long. simpl. by rewrite bool_decide_eq_false_2 by lia. }
  destruct Hstrong as (_ & _ & Hdis & _ & _ & Hrbo & Hterm); [done | done | lia |].
  destruct (Hrbo (length Tl - 1)) as (r' & Hr' & Hr'eq); [lia|].
  rewrite Hlr in Hr. assert (r' = r) as -> by congruence.
  destruct Hterm as (e' & He' & He'eq); [lia|].
  assert (e' = e) as -> by congruence.
  eexists. split; [exact Hv|].
  rewrite Hdis, Hr'eq, He'eq, <- Hlen.
  replace (S (length Sl - 1)) with (length Sl) by lia. ring.
Qed.

(** The part of C2 that the code satisfies: on lists without duplicates of
    the same length [l >= 2], with [0 < p < 1], [rbo_ext(p)] and
    [rbo(k=l, p, ext=True)] return the same value. *)
Lemma rbo_ext_reduces_to_rbo Sl Tl self p :
  RankingSimilarity_init Sl Tl = Ok self →
  length Sl = length Tl → 2 ≤ length Sl →
  (0 < p)%Q → (p < 1)%Q →
  ∃ v w, rbo_ext self p = Ok v
    ∧ rbo self (Some (Z.of_nat (length Sl))) p true = Ok w
    ∧ (v == w)%Q.
Proof.
  intros Hinit Hlen Hl Hp0 Hp1.
  destruct (rbo_ext_equal_length Sl Tl self p Hinit Hlen Hl) as (v & Hv & Hveq).
  destruct (rbo_value Sl Tl self (Some (Z.of_nat (length Sl))) p true)
    as (K & w & HK & _ & _ & Hw & Hweq); try done.
  { intros ->. simpl in Hl. lia. }
  { intros ->. simpl in Hlen. lia. }
  { simpl. lia. }
  { by right. }
  assert (S K = length Sl) as HKl.
  { destruct (init_Ok _ _ _ Hinit) as (_ & _ & ->).
    unfold effective_depth in HK. simpl in HK. lia. }
  exists v, w. split_and!; try done.
  rewrite Hveq, Hweq. unfold overlap_through.
  assert (Qeq_bool p 1 = false) as ->.
  { destruct (Qeq_bool p 1) eqn:Hb; [|done].
    apply Qeq_bool_iff in Hb. rewrite Hb in Hp1. by apply Qlt_irrefl in Hp1. }
  apply Qltb_lt in Hp1. rewrite Hp1. cbn [andb]. rewrite <- HKl.
  replace (S K - 1) with K by lia. reflexivity.
Qed.

End ExtProperties.

(** ** The check on [p] *)

(** [rbo] asserts [0 < p < 1] whenever [p] is not 1, before it reads the
    lists. *)
Lemma rbo_rejects_invalid_p {E : Type} `{Countable E}
    (self : RankingSimilarity E) k p ext :
  ¬ (p == 1)%Q → ¬ (0 < p ∧ p < 1)%Q →
  rbo self k p ext = Raise AssertionError.
Proof.
  intros Hp1 Hp. unfold rbo, rbo_arrays.
  rewrite rbo_weights_invalid; [done|]. by intros [?|?].
Qed.

(** ** Concrete runs *)

(** C1 as stated fails: on the identical lists ['a'] and ['a'], with
    [p = 1/2] and no extrapolation, [rbo] returns 1/2, not 1.  The run
    involves no rounding: 1/2 is a float, and so is every value it forms. *)
Lemma rbo_identical_lists_half :
  ∃ self v, RankingSimilarity_init ["a"] ["a"] = Ok self
    ∧ valid_depth None ∧ valid_p (1 # 2)
    ∧ rbo self None (1 # 2) false = Ok v
    ∧ (v == 1 # 2)%Q ∧ ¬ (v == 1)%Q.
Proof.
  eexists _, _. split_and!; [vm_compute; reflexivity | done | | vm_compute; reflexivity | done | done].
  right. done.
Qed.

(** The hypotheses of the theorem on identical lists hold on a concrete run. *)
Lemma rbo_identical_lists_witness :
  ∃ self, RankingSimilarity_init abcde abcde = Ok self
    ∧ abcde ≠ [] ∧ valid_depth (Some 3%Z) ∧ (1 == 1)%Q
    ∧ ∃ v, rbo self (Some 3%Z) 1 true = Ok v ∧ (v == 1)%Q.
Proof.
  exists (ranking_of abcde abcde).
  assert (RankingSimilarity_init abcde abcde = Ok (ranking_of abcde abcde)) as Hinit
    by (vm_compute; reflexivity).
  assert (abcde ≠ []) as Hne by done.
  assert (valid_depth (Some 3%Z)) as Hk by (simpl; lia).
  assert (1 == 1)%Q as Hp by reflexivity.
  repeat (split; [assumption|]).
  exact (rbo_identical_lists abcde _ (Some 3%Z) 1 true Hinit Hne Hk Hp).
Defined.

(** C2 fails on lists of length 1: [rbo(k=1, p, ext=True)] returns 1 on
    ['a'] and ['a'] while [rbo_ext(p)] raises [UnboundLocalError], its local
    [ext_term] being assigned only inside the loop. *)
Theorem rbo_ext_single_item_mismatch :
  ∃ self w, RankingSimilarity_init ["a"] ["a"] = Ok self
    ∧ rbo self (Some 1%Z) (1 # 2) true = Ok w ∧ (w == 1)%Q
    ∧ rbo_ext self (1 # 2) = Raise UnboundLocalError.
Proof.
  eexists _, _. split_and!; [vm_compute; reflexivity.. | done | vm_compute; reflexivity].
Qed.

(** C3 fails for [rbo_ext]: with [p = 2] on ['a','b'] and ['b','a'], [rbo]
    raises [AssertionError] but [rbo_ext], which has no assertion on [p],
    returns the score 2. *)
Theorem rbo_ext_accepts_invalid_p :
  ∃ self v, RankingSimilarity_init ["a"; "b"] ["b"; "a"] = Ok self
    ∧ rbo self None 2 false = Raise AssertionError
    ∧ rbo_ext self 2 = Ok v ∧ (v == 2)%Q.
Proof.
  eexists _, _. split_and!; [vm_compute; reflexivity.. | done].
Qed.

(** The hypotheses of the theorem on exchanged lists hold on a concrete run. *)
Lemma rbo_symmetric_witness :
  ∃ self self', RankingSimilarity_init abcde edc = Ok self
    ∧ RankingSimilarity_init edc abcde = Ok self'
    ∧ rbo self None (1 # 2) true = rbo self' None (1 # 2) true
    ∧ rbo_ext self (1 # 2) = rbo_ext self' (1 # 2).
Proof.
  exists (ranking_of abcde edc), (ranking_of edc abcde).
  assert (RankingSimilarity_init abcde edc = Ok (ranking_of abcde edc)) as Hinit
    by (vm_compute; reflexivity).
  assert (RankingSimilarity_init edc abcde = Ok (ranking_of edc abcde)) as Hinit'
    by (vm_compute; reflexivity).
  repeat (split; [assumption|]).
  exact (rbo_symmetric abcde edc _ _ None (1 # 2) true Hinit Hinit').
Defined.

(** C5: on ['a','b','c','d','e'] and ['e','d','c'], [rbo(k=3, p=1.0,
    ext=False)] returns 1/9; the arrays are [A = [0, 0, 1/3]] and
    [AO = [0, 0, 1/9]]. *)
Theorem rbo_abcde_edc :
  ∃ self st v, RankingSimilarity_init abcde edc = Ok self
    ∧ rbo_arrays self (Some 3%Z) 1 = Ok st
    ∧ Forall2 Qeq (rbo_A st) [0; 0; 1 # 3]%Q
    ∧ Forall2 Qeq (rbo_AO st) [0; 0; 1 # 9]%Q
    ∧ rbo self (Some 3%Z) 1 false = Ok v ∧ (v == 1 # 9)%Q.
Proof.
  eexists _, _, _.
  split; [vm_compute; reflexivity|].
  split; [vm_compute; reflexivity|].
  split; [repeat constructor|].
  split; [repeat constructor|].
  split; [vm_compute; reflexivity | done].
Qed.

(** The hypotheses of the theorem on disjoint lists hold on a concrete run. *)
Lemma rbo_disjoint_lists_witness :
  ∃ self, RankingSimilarity_init ["a"; "b"] ["c"; "d"] = Ok self
    ∧ ["a"; "b"] ≠ [] ∧ ["c"; "d"] ≠ []
    ∧ (∀ x : string, x ∈ ["a"; "b"] → x ∉ ["c"; "d"])
    ∧ valid_depth None ∧ valid_p (1 # 2)
    ∧ ∃ st v, rbo_arrays self None (1 # 2) = Ok st
        ∧ Forall (λ a, a == 0)%Q (rbo_A st)
        ∧ Forall (λ ao, ao == 0)%Q (rbo_AO st)
        ∧ rbo self None (1 # 2) false = Ok v ∧ (v == 0)%Q.
Proof.
  exists (ranking_of ["a"; "b"] ["c"; "d"]).
  assert (RankingSimilarity_init ["a"; "b"] ["c"; "d"]
          = Ok (ranking_of ["a"; "b"] ["c"; "d"])) as Hinit
    by (vm_compute; reflexivity).
  assert (["a"; "b"] ≠ @nil string) as HS by done.
  assert (["c"; "d"] ≠ @nil string) as HT by done.
  assert (∀ x : string, x ∈ ["a"; "b"] → x ∉ ["c"; "d"]) as Hdisj.
  { intros x Hx Hx'. set_unfold. naive_solver. }
  assert (valid_depth None) as Hk by done.
  assert (valid_p (1 # 2)) as Hp by (right; done).
  repeat (split; [assumption|]).
  exact (rbo_disjoint_lists _ _ _ None (1 # 2) Hinit HS HT Hdisj Hk Hp).
Defined.

(** The hypotheses of the theorem on the average overlap hold on a concrete run. *)
Lemma rbo_average_overlap_witness :
  ∃ self, RankingSimilarity_init abcde edc = Ok self
    ∧ abcde ≠ [] ∧ edc ≠ [] ∧ valid_depth (Some 3%Z) ∧ (1 == 1)%Q
    ∧ ∃ st v, rbo_arrays self (Some 3%Z) 1 = Ok st
        ∧ rbo self (Some 3%Z) 1 false = Ok v
        ∧ (v == Qsum (λ d, default 0 (rbo_A st !! d)) (length (rbo_A st))
                / inject_Z (Z.of_nat (length (rbo_A st))))%Q
        ∧ (v == average_overlap abcde edc (Z.to_nat (effective_depth self (Some 3%Z))))%Q
        ∧ (0 <= v ∧ v <= 1)%Q.
Proof.
  exists (ranking_of abcde edc).
  assert (RankingSimilarity_init abcde edc = Ok (ranking_of abcde edc)) as Hinit
    by (vm_compute; reflexivity).
  assert (abcde ≠ []) as HS by done.
  assert (edc ≠ []) as HT by done.
  assert (valid_depth (Some 3%Z)) as Hk by (simpl; lia).
  assert (1 == 1)%Q as Hp by done.
  repeat (split; [assumption|]).
  exact (rbo_average_overlap _ _ _ (Some 3%Z) 1 false Hinit HS HT Hk Hp).
Defined.


(** C8 as stated fails on the kind of exception: with depth 0 requested on
    ['a'] and ['a'], and with an empty first list, [rbo] raises
    [IndexError]; the failure of the check on the parameters,
    [AssertionError], is not what is raised. *)
Lemma rbo_zero_depth_IndexError :
  ∃ self self', RankingSimilarity_init ["a"] ["a"] = Ok self
    ∧ RankingSimilarity_init [] ["a"] = Ok self'
    ∧ effective_depth self (Some 0%Z) = 0%Z
    ∧ effective_depth self' None = 0%Z
    ∧ rbo self (Some 0%Z) 1 false = Raise IndexError
    ∧ rbo self' None 1 false = Raise IndexError
    ∧ rbo self (Some 0%Z) 1 false ≠ Raise AssertionError.
Proof.
  exists (ranking_of ["a"] ["a"]), (ranking_of [] ["a"]).
  split_and!; [vm_compute; reflexivity.. | ].
  intros Heq. vm_compute in Heq. discriminate Heq.
Qed.

(** The hypotheses of the theorem on depth 0 hold on a concrete run. *)
Lemma rbo_zero_depth_witness :
  ∃ self, RankingSimilarity_init ["a"] ["a"] = Ok self
    ∧ (effective_depth self (Some 0%Z) <= 0)%Z
    ∧ rbo self (Some 0%Z) (1 # 2) true =
        Raise (if Qeq_bool (1 # 2) 1 || (Qltb 0 (1 # 2) && Qltb (1 # 2) 1)
               then IndexError else AssertionError).
Proof.
  exists (ranking_of ["a"] ["a"]).
  assert (RankingSimilarity_init ["a"] ["a"] = Ok (ranking_of ["a"] ["a"])) as Hinit
    by (vm_compute; reflexivity).
  assert (effective_depth (ranking_of ["a"] ["a"]) (Some 0%Z) <= 0)%Z as Hk
    by (vm_compute; discriminate).
  repeat (split; [assumption|]).
  exact (rbo_zero_depth _ _ _ (Some 0%Z) (1 # 2) true Hinit Hk).
Defined.

(** * Further properties *)

(** ** More arithmetic of the measures *)

Lemma Qsum_le (f g : nat → Q) (n : nat) :
  (∀ i, i < n → (f i <= g i)%Q) → (Qsum f n <= Qsum g n)%Q.
Proof.
  induction n as [|n IH]; intros Hfg; cbn [Qsum]; [apply Qle_refl|].
  apply Qplus_le_compat; [apply IH; intros i Hi; apply Hfg; lia | apply Hfg; lia].
Qed.

Lemma Qsum_nonneg (f : nat → Q) (n : nat) :
  (∀ i, i < n → (0 <= f i)%Q) → (0 <= Qsum f n)%Q.
Proof.
  intros Hf. rewrite <- (Qsum_zeros n). by apply Qsum_le.
Qed.

Lemma Qsum_mono (f : nat → Q) (n m : nat) :
  n ≤ m → (∀ i, n ≤ i < m → (0 <= f i)%Q) → (Qsum f n <= Qsum f m)%Q.
Proof.
  induction 1 as [|m Hnm IH]; intros Hf; [apply Qle_refl|].
  cbn [Qsum]. specialize (IH ltac:(intros i Hi; apply Hf; lia)).
  specialize (Hf m ltac:(lia)). lra.
Qed.

Lemma Qpower_nat_bounds (p : Q) (n : nat) :
  (0 <= p)%Q → (p <= 1)%Q → (0 <= p ^ Z.of_nat n ∧ p ^ Z.of_nat n <= 1)%Q.
Proof.
  intros Hp0 Hp1. induction n as [|n [IH0 IH1]].
  - simpl. split; [done | apply Qle_refl].
  - rewrite Qpower_succ. split.
    + by apply Qmult_le_0_compat.
    + apply Qle_trans with (1 * 1)%Q; [|apply Qle_refl].
      apply Qmult_le_compat_nonneg; split; done.
Qed.

Section MoreMeasureFacts.
Context {E : Type} `{Countable E}.
Implicit Types Sl Tl : list E.

Lemma weighted_term_bounds Sl Tl p d :
  (0 <= p)%Q → (p <= 1)%Q →
  (0 <= (1 - p) * p ^ Z.of_nat d * agreement Sl Tl d
   ∧ (1 - p) * p ^ Z.of_nat d * agreement Sl Tl d <= (1 - p) * p ^ Z.of_nat d * 1)%Q.
Proof.
  intros Hp0 Hp1.
  destruct (Qpower_nat_bounds p d Hp0 Hp1) as [Hq0 Hq1].
  destruct (agreement_bounds Sl Tl d) as [Ha0 Ha1].
  assert (0 <= (1 - p) * p ^ Z.of_nat d)%Q as Hw.
  { apply Qmult_le_0_compat; [lra | done]. }
  split.
  - by apply Qmult_le_0_compat.
  - rewrite !(Qmult_comm ((1 - p) * p ^ Z.of_nat d)).
    by apply Qmult_le_compat_r.
Qed.

Lemma weighted_overlap_bounds Sl Tl p n :
  (0 <= p)%Q → (p <= 1)%Q →
  (0 <= weighted_overlap p Sl Tl n
   ∧ weighted_overlap p Sl Tl n <= 1 - p ^ Z.of_nat n)%Q.
Proof.
  intros Hp0 Hp1. unfold weighted_overlap. split.
  - apply Qsum_nonneg. intros i _. by apply weighted_term_bounds.
  - rewrite <- Qsum_geometric. apply Qsum_le. intros i _.
    by apply weighted_term_bounds.
Qed.

Lemma weighted_overlap_same Sl p n :
  NoDup Sl → n ≤ length Sl →
  (weighted_overlap p Sl Sl n == 1 - p ^ Z.of_nat n)%Q.
Proof.
  intros HS Hn. unfold weighted_overlap. rewrite <- Qsum_geometric.
  apply Qsum_ext. intros i Hi. rewrite agreement_same by (done || lia). ring.
Qed.

Lemma agreement_take Sl Tl n d :
  d < n → agreement (take n Sl) (take n Tl) d = agreement Sl Tl d.
Proof.
  intros Hd. unfold agreement, prefix_overlap.
  rewrite !take_take. by replace (S d `min` n) with (S d) by lia.
Qed.

End MoreMeasureFacts.

(** ** The constructor *)

Section Constructor.
Context {E : Type} `{Countable E}.
Implicit Types Sl Tl : list E.

(** X1: [__init__] builds the object, with the two lists and their lengths,
    exactly when neither list has a duplicate; it raises [AssertionError]
    otherwise. *)
Theorem RankingSimilarity_init_NoDup Sl Tl :
  RankingSimilarity_init Sl Tl =
    if bool_decide (NoDup Sl ∧ NoDup Tl) then Ok (ranking_of Sl Tl)
    else Raise AssertionError.
Proof.
  case_bool_decide as Hnd.
  - destruct Hnd. by apply init_NoDup.
  - destruct (RankingSimilarity_init Sl Tl) as [self|e] eqn:Hinit.
    + apply init_Ok in Hinit as (? & ? & _). by destruct Hnd.
    + unfold RankingSimilarity_init, assert in Hinit.
      repeat case_bool_decide; simpl in Hinit; congruence.
Qed.

End Constructor.

(** ** More on [rbo] *)

Lemma valid_p_dec (p : Q) : valid_p p ∨ ¬ valid_p p.
Proof.
  unfold valid_p.
  destruct (Qeq_dec p 1) as [?|Hne]; [by left; left|].
  destruct (Qlt_le_dec 0 p) as [?|Hle0].
  - destruct (Qlt_le_dec p 1) as [?|Hle1]; [by left; right|].
    right. intros [?|[_ Hlt]]; [done|]. by apply Qlt_not_le in Hlt.
  - right. intros [?|[Hlt _]]; [done|]. by apply Qlt_not_le in Hlt.
Qed.

Section MoreRbo.
Context {E : Type} `{Countable E}.
Implicit Types Sl Tl : list E.

Lemma rbo_nonpos_depth (self : RankingSimilarity E) k p ext :
  valid_p p → (effective_depth self k <= 0)%Z →
  rbo self k p ext = Raise IndexError.
Proof.
  intros Hp Hk. unfold rbo, rbo_arrays.
  destruct (rbo_weights_Ok (effective_depth self k) p Hp) as (ws & -> & _).
  rewrite bind_Ok. unfold rbo_first. rewrite !range_nil by lia.
  destruct (getitem_cases (self_S self) 0) as [[s0 ->] | ->]; [rewrite bind_Ok | done].
  destruct (getitem_cases (self_T self) 0) as [[t0 ->] | ->]; [rewrite bind_Ok | done].
  by rewrite fmap_nil, setitem_nil.
Qed.

Lemma positive_depth_valid Sl Tl self k :
  RankingSimilarity_init Sl Tl = Ok self →
  (1 <= effective_depth self k)%Z → Sl ≠ [] ∧ Tl ≠ [] ∧ valid_depth k.
Proof.
  intros Hinit Hk.
  pose proof (effective_depth_nonpos Sl Tl self k Hinit) as Hiff.
  split_and!.
  - intros ->. assert (effective_depth self k <= 0)%Z by (apply Hiff; by left). lia.
  - intros ->. assert (effective_depth self k <= 0)%Z by (apply Hiff; right; by left). lia.
  - destruct k as [k0|]; [|done]. simpl.
    destruct (decide (k0 <= 0)%Z) as [Hk0|Hk0]; [|lia].
    assert (effective_depth self (Some k0) <= 0)%Z by (apply Hiff; right; right; eauto). lia.
Qed.

(** X2: the outcomes of [rbo] on a constructed object.  It returns a score
    exactly when [p] is valid and the effective depth is at least 1; it
    raises [AssertionError] exactly when [p] is invalid, [IndexError]
    exactly when [p] is valid and the effective depth is not positive, and
    never anything else (no division by zero, no unassigned local). *)
Theorem rbo_outcome Sl Tl self k p ext :
  RankingSimilarity_init Sl Tl = Ok self →
  match rbo self k p ext with
  | Ok _ => valid_p p ∧ (1 <= effective_depth self k)%Z
  | Raise AssertionError => ¬ valid_p p
  | Raise IndexError => valid_p p ∧ (effective_depth self k <= 0)%Z
  | Raise _ => False
  end.
Proof.
  intros Hinit.
  destruct (valid_p_dec p) as [Hp|Hp].
  - destruct (decide (effective_depth self k <= 0)%Z) as [Hk|Hk].
    + by rewrite rbo_nonpos_depth.
    + destruct (positive_depth_valid Sl Tl self k Hinit) as (HS & HT & Hvk); [lia|].
      destruct (rbo_value Sl Tl self k p ext Hinit HS HT Hvk Hp)
        as (K & v & _ & _ & _ & -> & _).
      split; [done | lia].
  - rewrite rbo_rejects_invalid_p; [done | |]; intros ?; apply Hp; [by left | by right].
Qed.

End MoreRbo.

Section RboScores.
Context {E : Type} `{Countable E}.
Implicit Types Sl Tl : list E.

Lemma overlap_through_bounds Sl Tl p K :
  valid_p p →
  (0 <= overlap_through p Sl Tl K
   ∧ overlap_through p Sl Tl K
     <= if Qltb p 1 then 1 - p ^ Z.of_nat (S K) else 1)%Q.
Proof.
  intros Hp. unfold overlap_through.
  destruct (Qeq_bool p 1) eqn:Hp1.
  - apply Qeq_bool_iff in Hp1.
    assert (Qltb p 1 = false) as -> by (apply Qltb_ge; rewrite Hp1; apply Qle_refl).
    apply average_overlap_bounds. lia.
  - destruct Hp as [Hp|[Hp0 Hp1']]; [apply Qeq_bool_iff in Hp; congruence|].
    rewrite (proj2 (Qltb_lt p 1) Hp1').
    apply weighted_overlap_bounds; lra.
Qed.

(** X3: for lists without duplicates, a valid depth and a valid [p], the
    score of [rbo] lies in [[0,1]], and extrapolating never lowers it. *)
Theorem rbo_score_bounds Sl Tl self k p :
  RankingSimilarity_init Sl Tl = Ok self → Sl ≠ [] → Tl ≠ [] →
  valid_depth k → valid_p p →
  ∃ v0 v1, rbo self k p false = Ok v0 ∧ rbo self k p true = Ok v1
    ∧ (0 <= v0)%Q ∧ (v0 <= v1)%Q ∧ (v1 <= 1)%Q.
Proof.
  intros Hinit HS HT Hk Hp.
  destruct (rbo_value Sl Tl self k p false Hinit HS HT Hk Hp)
    as (K & v0 & HK & _ & _ & Hv0 & Hv0eq).
  destruct (rbo_value Sl Tl self k p true Hinit HS HT Hk Hp)
    as (K' & v1 & HK' & _ & _ & Hv1 & Hv1eq).
  assert (K' = K) as -> by lia.
  exists v0, v1. split; [done|]. split; [done|].
  cbn [andb] in Hv0eq, Hv1eq.
  destruct (overlap_through_bounds Sl Tl p K Hp) as [Hao0 Hao1].
  destruct (agreement_bounds Sl Tl K) as [Ha0 Ha1].
  rewrite Hv0eq, Hv1eq.
  destruct (Qltb p 1) eqn:Hlt.
  - apply Qltb_lt in Hlt.
    destruct Hp as [Hp|[Hp0 _]]; [rewrite Hp in Hlt; by apply Qlt_irrefl in Hlt|].
    destruct (Qpower_nat_bounds p (S K)) as [Hq0 Hq1]; [lra | lra |].
    assert (0 <= agreement Sl Tl K * p ^ Z.of_nat (S K))%Q as Ht0
      by (by apply Qmult_le_0_compat).
    assert (agreement Sl Tl K * p ^ Z.of_nat (S K) <= 1 * p ^ Z.of_nat (S K))%Q as Ht1
      by (by apply Qmult_le_compat_r).
    split_and!; lra.
  - split_and!; lra.
Qed.

(** X4: for [0 < p < 1], [rbo] returns the weighted sum of the entries of
    [A], with weights [(1-p) * p^d], plus, when [ext] is set, the last entry
    of [A] times [p^k'] (Eq. (7) and Eq. (23) of the docstring). *)
Theorem rbo_weighted_sum Sl Tl self k p ext :
  RankingSimilarity_init Sl Tl = Ok self → Sl ≠ [] → Tl ≠ [] →
  valid_depth k → (0 < p)%Q → (p < 1)%Q →
  ∃ st v, rbo_arrays self k p = Ok st ∧ rbo self k p ext = Ok v
    ∧ Z.of_nat (length (rbo_A st)) = effective_depth self k
    ∧ (v == Qsum (λ d, (1 - p) * p ^ Z.of_nat d * default 0 (rbo_A st !! d))
                 (length (rbo_A st))
            + (if ext then default 0 (last (rbo_A st)) * p ^ effective_depth self k
               else 0))%Q.
Proof.
  intros Hinit HS HT Hk Hp0 Hp1.
  assert (valid_p p) as Hp by (by right).
  destruct (rbo_arrays_inv Sl Tl self k p Hinit HS HT Hk Hp)
    as (K & st & HK & HKS & HKT & Hst & HlenA & HlenAO & _ & _ & HA & HAO).
  destruct (rbo_value Sl Tl self k p ext Hinit HS HT Hk Hp)
    as (K' & v & HK' & _ & _ & Hv & Hveq).
  assert (K' = K) as -> by lia.
  exists st, v. split; [done|]. split; [done|]. split; [lia|].
  rewrite Hveq, HK, HlenA. unfold overlap_through.
  assert (Qeq_bool p 1 = false) as ->.
  { destruct (Qeq_bool p 1) eqn:Hb; [|done].
    apply Qeq_bool_iff in Hb. rewrite Hb in Hp1. by apply Qlt_irrefl in Hp1. }
  rewrite (proj2 (Qltb_lt p 1) Hp1), andb_true_r.
  unfold weighted_overlap.
  rewrite (Qsum_ext (λ d, (1 - p) * p ^ Z.of_nat d * default 0 (rbo_A st !! d))%Q
                    (λ d, (1 - p) * p ^ Z.of_nat d * agreement Sl Tl d)%Q).
  2:{ intros i Hi. destruct (HA i Hi) as (a & -> & Ha). simpl. by rewrite Ha. }
  destruct ext; [|reflexivity].
  destruct (HA K) as (a & Ha & Haeq); [lia|].
  rewrite last_lookup, HlenA. simpl. rewrite Ha. simpl. by rewrite Haeq.
Qed.

(** X5: for [0 < p < 1] and without extrapolation, a deeper evaluation never
    lowers the score of [rbo]. *)
Theorem rbo_monotone_depth Sl Tl self k1 k2 p :
  RankingSimilarity_init Sl Tl = Ok self → Sl ≠ [] → Tl ≠ [] →
  (1 <= k1)%Z → (k1 <= k2)%Z → (0 < p)%Q → (p < 1)%Q →
  ∃ v1 v2, rbo self (Some k1) p false = Ok v1
    ∧ rbo self (Some k2) p false = Ok v2 ∧ (v1 <= v2)%Q.
Proof.
  intros Hinit HS HT Hk1 Hk12 Hp0 Hp1.
  assert (valid_p p) as Hp by (by right).
  destruct (rbo_value Sl Tl self (Some k1) p false Hinit HS HT) as
    (K1 & v1 & HK1 & _ & _ & Hv1 & Hv1eq); [simpl; lia | done |].
  destruct (rbo_value Sl Tl self (Some k2) p false Hinit HS HT) as
    (K2 & v2 & HK2 & _ & _ & Hv2 & Hv2eq); [simpl; lia | done |].
  exists v1, v2. split; [done|]. split; [done|].
  rewrite Hv1eq, Hv2eq. cbn [andb]. unfold overlap_through.
  assert (Qeq_bool p 1 = false) as ->.
  { destruct (Qeq_bool p 1) eqn:Hb; [|done].
    apply Qeq_bool_iff in Hb. rewrite Hb in Hp1. by apply Qlt_irrefl in Hp1. }
  assert (S K1 ≤ S K2) as HK by (unfold effective_depth in *; lia).
  pose proof (Qsum_mono (λ d, (1 - p) * p ^ Z.of_nat d * agreement Sl Tl d)%Q
                (S K1) (S K2) HK) as Hmono.
  unfold weighted_overlap.
  assert (∀ i, S K1 ≤ i < S K2 →
             (0 <= (1 - p) * p ^ Z.of_nat i * agreement Sl Tl i)%Q) as Hterms.
  { intros i _. apply weighted_term_bounds; lra. }
  specialize (Hmono Hterms). lra.
Qed.

End RboScores.

Section RboPrefix.
Context {E : Type} `{Countable E}.
Implicit Types Sl Tl : list E.

Lemma agreement_prefix Sl Tl Sl' Tl' K d :
  take K Sl' = take K Sl → take K Tl' = take K Tl → d < K →
  agreement Sl' Tl' d = agreement Sl Tl d.
Proof.
  intros HS HT Hd.
  rewrite <- (agreement_take Sl' Tl' K d Hd), <- (agreement_take Sl Tl K d Hd).
  by rewrite HS, HT.
Qed.

Lemma overlap_through_prefix Sl Tl Sl' Tl' p K d :
  take K Sl' = take K Sl → take K Tl' = take K Tl → d < K →
  (overlap_through p Sl' Tl' d == overlap_through p Sl Tl d)%Q.
Proof.
  intros HS HT Hd. unfold overlap_through, average_overlap, weighted_overlap.
  destruct (Qeq_bool p 1).
  - rewrite (Qsum_ext (agreement Sl' Tl') (agreement Sl Tl)); [reflexivity|].
    intros i Hi. rewrite (agreement_prefix Sl Tl Sl' Tl' K i) by (done || lia).
    reflexivity.
  - apply Qsum_ext. intros i Hi.
    rewrite (agreement_prefix Sl Tl Sl' Tl' K i) by (done || lia). reflexivity.
Qed.

(** X6: the score of [rbo] depends only on the first [k'] items of each
    list, [k'] being the effective depth: a second pair of lists with the
    same first [k'] items gets the same score at depth [k']. *)
Theorem rbo_prefix_only Sl Tl Sl' Tl' self self' k p ext :
  RankingSimilarity_init Sl Tl = Ok self →
  RankingSimilarity_init Sl' Tl' = Ok self' →
  Sl ≠ [] → Tl ≠ [] → valid_depth k → valid_p p →
  take (Z.to_nat (effective_depth self k)) Sl'
    = take (Z.to_nat (effective_depth self k)) Sl →
  take (Z.to_nat (effective_depth self k)) Tl'
    = take (Z.to_nat (effective_depth self k)) Tl →
  ∃ v w, rbo self k p ext = Ok v
    ∧ rbo self' (Some (effective_depth self k)) p ext = Ok w
    ∧ (v == w)%Q.
Proof.
  intros Hinit Hinit' HS HT Hk Hp HtS HtT.
  destruct (rbo_value Sl Tl self k p ext Hinit HS HT Hk Hp)
    as (K & v & HK & HKS & HKT & Hv & Hveq).
  rewrite HK, Nat2Z.id in HtS, HtT. rewrite HK.
  assert (S K ≤ length Sl') as HKS'.
  { apply (f_equal length) in HtS. rewrite !length_take in HtS. lia. }
  assert (S K ≤ length Tl') as HKT'.
  { apply (f_equal length) in HtT. rewrite !length_take in HtT. lia. }
  destruct (rbo_value Sl' Tl' self' (Some (Z.of_nat (S K))) p ext Hinit')
    as (K' & w & HK' & _ & _ & Hw & Hweq); try done.
  { intros ->. simpl in HKS'. lia. }
  { intros ->. simpl in HKT'. lia. }
  { simpl. lia. }
  assert (K' = K) as ->.
  { destruct (init_Ok _ _ _ Hinit') as (_ & _ & ->).
    unfold effective_depth in HK'. simpl in HK'. lia. }
  exists v, w. split; [done|]. split; [done|].
  rewrite Hveq, Hweq.
  rewrite (overlap_through_prefix Sl Tl Sl' Tl' p (S K) K) by (done || lia).
  rewrite (agreement_prefix Sl Tl Sl' Tl' (S K) K) by (done || lia).
  reflexivity.
Qed.

(** X7: on two identical lists without duplicates, of length at least 2,
    [rbo_ext] returns 1 in exact arithmetic, for every [p] with
    [0 <= p <= 1]. *)
Theorem rbo_ext_identical_lists Sl self p :
  RankingSimilarity_init Sl Sl = Ok self → 2 ≤ length Sl →
  (0 <= p)%Q → (p <= 1)%Q →
  ∃ v, rbo_ext self p = Ok v ∧ (v == 1)%Q.
Proof.
  intros Hinit Hl _ _.
  destruct (rbo_ext_equal_length Sl Sl self p Hinit eq_refl Hl) as (v & Hv & Hveq).
  destruct (init_Ok _ _ _ Hinit) as (HS & _ & _).
  exists v. split; [done|]. rewrite Hveq.
  rewrite weighted_overlap_same by done.
  rewrite agreement_same by (done || lia). ring.
Qed.

End RboPrefix.

(** ** [rbo_ext] on lists of unequal length *)

Lemma for_each_app {St} (body : Z → St → result St) (ds1 ds2 : list Z) (st : St) :
  for_each body (ds1 ++ ds2) st = for_each body ds1 st ≫= for_each body ds2.
Proof.
  revert st. induction ds1 as [|d ds1 IH]; intros st; [done|].
  simpl. destruct (body d st) as [st1|e]; [|done]. rewrite !bind_Ok. apply IH.
Qed.

Lemma range_app (a b c : Z) :
  (a <= b)%Z → (b <= c)%Z → range a c = range a b ++ range b c.
Proof.
  intros Hab Hbc. unfold range.
  replace (c - a)%Z with ((b - a) + (c - b))%Z by lia.
  rewrite seqZ_app by lia. do 2 f_equal. lia.
Qed.

(** Once the short list is exhausted, a new common item can only be the new
    item of the long list, found in the short list. *)
Lemma prefix_overlap_S_tail {E : Type} `{Countable E} (Ss Ls : list E) n ld :
  NoDup Ls →
  length Ss ≤ n → Ls !! n = Some ld →
  Z.of_nat (prefix_overlap Ss Ls (S n)) =
    (Z.of_nat (prefix_overlap Ss Ls n)
     + indicator (bool_decide (ld ∈ (list_to_set Ss : gset E))))%Z.
Proof.
  intros HL Hn Hld. unfold prefix_overlap.
  rewrite !(take_ge Ss) by lia.
  rewrite (take_S_r Ls n ld Hld), list_to_set_snoc_L.
  pose proof (NoDup_take_fresh Ls n ld HL Hld) as Hfresh.
  set (P := list_to_set Ss : gset E). set (R := list_to_set (take n Ls) : gset E).
  assert (ld ∉ R) as HldR by (subst R; set_solver).
  clearbody P R. unfold indicator. case_bool_decide.
  - replace (P ∩ (R ∪ {[ld]})) with (P ∩ R ∪ {[ld]}) by set_solver.
    rewrite size_union_fresh by set_solver. lia.
  - replace (P ∩ (R ∪ {[ld]})) with (P ∩ R) by set_solver. lia.
Qed.

Section ExtTail.
Context {E : Type} `{Countable E}.
Variables (Ss Ls : list E) (p : Q).
Hypothesis HS : NoDup Ss.
Hypothesis HL : NoDup Ls.
Hypothesis Hs1 : 0 < length Ss.
Hypothesis Hsl : length Ss ≤ length Ls.

Lemma ext_inv_to_tail st :
  ext_inv Ss Ls p (length Ss) st → ext_tail_inv Ss Ls p (length Ss) st.
Proof.
  intros (HlX & HlA & Hlr & _ & Hstrong).
  destruct Hstrong as (HSr & HLr & Hdis & HX & HA & Hr & Hterm); [done | done | lia |].
  rewrite take_ge in HSr by lia.
  unfold ext_tail_inv. split_and!; try done.
  - rewrite Hdis. rewrite (Qsum_ext _ (λ _, 0%Q)); [by rewrite Qsum_zeros|].
    intros i Hi. unfold disjoint_term. case_bool_decide; [reflexivity | lia].
  - intros Hs2. destruct (Hterm Hs2) as (e & He & Heeq).
    exists e. split; [done|]. rewrite Heeq. unfold tail_term, agreement.
    replace (S (length Ss - 1)) with (length Ss) by lia.
    rewrite Z.sub_diag. simpl (inject_Z 0).
    field. apply inject_Z_pos_neq0. lia.
Qed.

(** One turn of the loop of [rbo_ext] after the end of the short list. *)
Lemma rbo_ext_body_tail (n : nat) (st : ext_state E) :
  length Ss ≤ n < length Ls → ext_tail_inv Ss Ls p n st →
  ∃ st', rbo_ext_body Ss Ls (Z.of_nat (length Ss)) p (Z.of_nat n) st = Ok st'
         ∧ ext_tail_inv Ss Ls p (S n) st'.
Proof.
  intros Hn (HlX & HlA & Hlr & HSr & HLr & Hdis & HX & HA & Hr & Hterm).
  destruct (lookup_lt_is_Some_2 Ls n) as [ld Hld]; [lia|].
  pose proof (HX (n - 1) ltac:(lia)) as Hx_prev.
  replace (S (n - 1)) with n in Hx_prev by lia.
  destruct (Hr (n - 1)) as (r_prev & Hr_prev & Hr_preveq); [lia|].
  replace (S (n - 1)) with n in Hr_preveq by lia.
  unfold rbo_ext_body.
  replace (Z.of_nat n - 1)%Z with (Z.of_nat (n - 1)) by lia.
  destruct (Z.ltb_spec (Z.of_nat n) (Z.of_nat (length Ss))) as [Hlt|Hge]; [lia|].
  rewrite (getitem_lookup Ls n ld Hld), bind_Ok.
  rewrite (getitem_lookup _ _ _ Hx_prev), bind_Ok.
  rewrite setitem_insert by lia. rewrite bind_Ok.
  rewrite HSr, <- (prefix_overlap_S_tail Ss Ls n ld) by (done || lia).
  set (x := Z.of_nat (prefix_overlap Ss Ls (S n))).
  rewrite (getitem_lookup _ n x) by (apply list_lookup_insert_eq; lia).
  rewrite !bind_Ok.
  rewrite truediv_ok by (apply inject_Z_pos_neq0; lia).
  rewrite bind_Ok.
  rewrite setitem_insert by lia. rewrite bind_Ok.
  match goal with |- context [<[n := ?v]> (ext_A st)] => set (a := v) end.
  rewrite (getitem_lookup _ _ _ Hr_prev), bind_Ok.
  rewrite (getitem_lookup _ n a) by (apply list_lookup_insert_eq; lia).
  rewrite bind_Ok.
  rewrite setitem_insert by lia. rewrite bind_Ok.
  assert (<[n:=x]> (ext_X st) !! (length Ss - 1)
          = Some (Z.of_nat (prefix_overlap Ss Ls (length Ss)))) as HX_s.
  { rewrite list_lookup_insert_ne by lia.
    rewrite (HX (length Ss - 1)) by lia. do 3 f_equal. lia. }
  replace (Z.of_nat (length Ss) - 1)%Z with (Z.of_nat (length Ss - 1)) by lia.
  rewrite (getitem_lookup _ _ _ HX_s), !bind_Ok.
  repeat first [ rewrite bind_Ok
               | rewrite truediv_ok by (apply inject_Z_pos_neq0; lia) ].
  eexists. split; [done|].
  assert (a == agreement Ss Ls n)%Q as Ha.
  { subst a x. unfold agreement.
    replace (Z.of_nat n + 1)%Z with (Z.of_nat (S n)) by lia.
    field. apply inject_Z_pos_neq0. lia. }
  unfold ext_tail_inv.
  cbn [ext_X ext_A ext_rbo ext_S_running ext_L_running ext_disjoint ext_term].
  rewrite !length_insert. split_and!; try done.
  - rewrite HLr, (take_S_r Ls n ld Hld), list_to_set_snoc_L. set_solver.
  - cbn [Qsum]. rewrite Hdis. unfold disjoint_term at 3.
    rewrite bool_decide_eq_false_2 by lia. ring.
  - intros d Hd. destruct (decide (d = n)) as [->|Hne].
    + apply list_lookup_insert_eq. lia.
    + rewrite list_lookup_insert_ne by done. apply HX. lia.
  - intros d Hd. destruct (decide (d = n)) as [->|Hne].
    + exists a. split; [apply list_lookup_insert_eq; lia | done].
    + rewrite list_lookup_insert_ne by done. apply HA. lia.
  - intros d Hd. destruct (decide (d = n)) as [->|Hne].
    + eexists. split; [apply list_lookup_insert_eq; lia |].
      rewrite Hr_preveq, Ha. unfold weighted_overlap. cbn [Qsum]. ring.
    + rewrite list_lookup_insert_ne by done. apply Hr. lia.
  - intros _. eexists. split; [done|]. unfold tail_term. subst x.
    replace (Z.of_nat n + 1)%Z with (Z.of_nat (S n)) by lia. ring.
Qed.

(** The state after all the turns of the loop, on lists without
    duplicates. *)
Lemma rbo_ext_loop_tail :
  ∃ st, (st0 ← rbo_ext_first Ss Ls (Z.of_nat (length Ls)) p;
         for_each (rbo_ext_body Ss Ls (Z.of_nat (length Ss)) p)
                  (range 1 (Z.of_nat (length Ls))) st0) = Ok st
        ∧ ext_tail_inv Ss Ls p (length Ls) st.
Proof.
  destruct (rbo_ext_first_inv Ss Ls p Hs1 Hsl) as (st0 & -> & Hst0). rewrite bind_Ok.
  rewrite (range_app 1 (Z.of_nat (length Ss)) (Z.of_nat (length Ls))) by lia.
  rewrite for_each_app.
  destruct (for_each_range (rbo_ext_body Ss Ls (Z.of_nat (length Ss)) p)
              (ext_inv Ss Ls p) (length Ss - 1) 1 st0 Hst0)
    as (st1 & Hloop1 & Hst1).
  { intros i st Hi Hinv. apply rbo_ext_body_inv; [lia | lia | lia | done]. }
  replace (1 + (length Ss - 1)) with (length Ss) in * by lia.
  change (Z.of_nat 1) with 1%Z in Hloop1. rewrite Hloop1, bind_Ok.
  apply ext_inv_to_tail in Hst1.
  destruct (for_each_range (rbo_ext_body Ss Ls (Z.of_nat (length Ss)) p)
              (ext_tail_inv Ss Ls p) (length Ls - length Ss) (length Ss) st1 Hst1)
    as (st2 & Hloop2 & Hst2).
  { intros i st Hi Hinv. apply rbo_ext_body_tail; [lia | done]. }
  replace (length Ss + (length Ls - length Ss)) with (length Ls) in * by lia.
  exists st2. split; [exact Hloop2 | done].
Qed.

End ExtTail.

Section ExtFormula.
Context {E : Type} `{Countable E}.
Implicit Types Sl Tl Ss Ls : list E.

Lemma short_long_init Sl Tl self Ss Ls :
  RankingSimilarity_init Sl Tl = Ok self → short_long self = (Ss, Ls) →
  NoDup Ss ∧ NoDup Ls ∧ length Ss ≤ length Ls
  ∧ length Ss = length Sl `min` length Tl
  ∧ length Ls = length Sl `max` length Tl.
Proof.
  intros (HS & HT & ->)%init_Ok. unfold short_long. simpl.
  case_bool_decide; intros [= <- <-]; split_and!; (done || lia).
Qed.

(** The value of [rbo_ext] on lists without duplicates. *)
Lemma rbo_ext_value Sl Tl self Ss Ls p :
  RankingSimilarity_init Sl Tl = Ok self → short_long self = (Ss, Ls) →
  0 < length Ss → 2 ≤ length Ls →
  ∃ v, rbo_ext self p = Ok v
    ∧ (v == weighted_overlap p Ss Ls (length Ls)
            + Qsum (disjoint_term p Ss Ls) (length Ls)
            + tail_term p Ss Ls (length Ls))%Q.
Proof.
  intros Hinit Hsl Hs Hl.
  destruct (short_long_init Sl Tl self Ss Ls Hinit Hsl) as (HS & HL & Hle & _ & _).
  destruct (rbo_ext_loop_tail Ss Ls p HS HL Hs Hle)
    as (st & Hst & _ & _ & Hlr & _ & _ & Hdis & _ & _ & Hr & Hterm).
  destruct (Hr (length Ls - 1)) as (r & Hrl & Hreq); [lia|].
  destruct Hterm as (e & He & Heeq); [lia|].
  replace (S (length Ls - 1)) with (length Ls) in Hreq by lia.
  unfold rbo_ext, rbo_ext_arrays. rewrite Hsl, Hst, bind_Ok.
  rewrite (getitem_last _ (length Ls - 1) r) by (done || lia).
  rewrite bind_Ok, He. eexists. split; [done|].
  by rewrite Hreq, Hdis, Heeq.
Qed.

(** X8: for [0 <= p <= 1], on lists without duplicates, both non-empty and
    the longer with at least 2 items, [rbo_ext] returns (in exact
    arithmetic) the sum of three terms: the weighted overlap through the
    length [l] of the long list, the correction for the depths beyond the
    length [s] of the short list, and the extrapolation
    [((X_l - X_s)/l + X_s/s) * p^l], where [X_n] is the number of items
    common to the prefixes of length [n] (Eq. (32) of the docstring). *)
Theorem rbo_ext_formula Sl Tl self Ss Ls p :
  RankingSimilarity_init Sl Tl = Ok self → short_long self = (Ss, Ls) →
  0 < length Ss → 2 ≤ length Ls →
  (0 <= p)%Q → (p <= 1)%Q →
  ∃ v, rbo_ext self p = Ok v
    ∧ (v == Qsum (λ d, (1 - p) * p ^ Z.of_nat d * agreement Ss Ls d) (length Ls)
            + Qsum (disjoint_term p Ss Ls) (length Ls)
            + tail_term p Ss Ls (length Ls))%Q.
Proof. intros Hinit Hsl Hs Hl _ _. by apply (rbo_ext_value Sl Tl). Qed.

End ExtFormula.

(** ** Bounds on [rbo_ext] *)

Lemma Qsum_plus (f g : nat → Q) (n : nat) :
  (Qsum f n + Qsum g n == Qsum (λ i, f i + g i) n)%Q.
Proof.
  induction n as [|n IH]; cbn [Qsum]; [reflexivity|]. rewrite <- IH. ring.
Qed.

Lemma Qdiv_inject_Z_bounds (a b : Z) :
  (0 <= a)%Z → (a <= b)%Z → (0 < b)%Z →
  (0 <= inject_Z a / inject_Z b ∧ inject_Z a / inject_Z b <= 1)%Q.
Proof.
  intros Ha Hab Hb.
  assert (0 < inject_Z b)%Q as Hpos.
  { change 0%Q with (inject_Z 0). by rewrite <- Zlt_Qlt. }
  split.
  - apply Qle_shift_div_l; [done|]. rewrite Qmult_0_l.
    change 0%Q with (inject_Z 0). by rewrite <- Zle_Qle.
  - apply Qle_shift_div_r; [done|]. rewrite Qmult_1_l. by rewrite <- Zle_Qle.
Qed.

Section ExtBounds.
Context {E : Type} `{Countable E}.
Implicit Types Sl Tl Ss Ls : list E.

Lemma prefix_overlap_le_short Ss Ls n : prefix_overlap Ss Ls n ≤ length Ss.
Proof.
  unfold prefix_overlap.
  etrans; [apply (subseteq_size _ (list_to_set (take n Ss))); set_solver|].
  etrans; [apply size_list_to_set_le|]. rewrite length_take. lia.
Qed.

Lemma prefix_overlap_mono Ss Ls n m :
  n ≤ m → prefix_overlap Ss Ls n ≤ prefix_overlap Ss Ls m.
Proof.
  intros Hnm. unfold prefix_overlap. apply subseteq_size.
  assert (∀ l : list E, (list_to_set (take n l) : gset E) ⊆ list_to_set (take m l))
    as Hsub.
  { intros l x. rewrite !elem_of_list_to_set, !elem_of_take.
    intros (i & ? & ?). exists i. split; [done | lia]. }
  pose proof (Hsub Ss). pose proof (Hsub Ls). set_solver.
Qed.

Lemma prefix_overlap_tail_growth Ss Ls n :
  NoDup Ls → length Ss ≤ n → n ≤ length Ls →
  prefix_overlap Ss Ls n ≤ prefix_overlap Ss Ls (length Ss) + (n - length Ss).
Proof.
  intros HL Hs Hn. induction n as [|n IH].
  - assert (length Ss = 0) as -> by lia. lia.
  - destruct (decide (length Ss = S n)) as [->|Hne]; [lia|].
    destruct (lookup_lt_is_Some_2 Ls n) as [ld Hld]; [lia|].
    pose proof (prefix_overlap_S_tail Ss Ls n ld HL ltac:(lia) Hld) as Hrec.
    unfold indicator in Hrec. destruct (bool_decide _); lia.
Qed.

(** Beyond the short list, the agreement and the correction of one depth add
    up to at most 1. *)
Lemma tail_depth_bound Ss Ls d :
  NoDup Ls → 0 < length Ss → length Ss ≤ d → d < length Ls →
  (0 <= inject_Z (Z.of_nat (prefix_overlap Ss Ls (length Ss))
                  * (Z.of_nat d + 1 - Z.of_nat (length Ss)))
        / inject_Z (Z.of_nat d + 1) / inject_Z (Z.of_nat (length Ss))
   ∧ agreement Ss Ls d
     + inject_Z (Z.of_nat (prefix_overlap Ss Ls (length Ss))
                 * (Z.of_nat d + 1 - Z.of_nat (length Ss)))
       / inject_Z (Z.of_nat d + 1) / inject_Z (Z.of_nat (length Ss)) <= 1)%Q.
Proof.
  intros HL Hs Hd Hdl.
  pose proof (prefix_overlap_le_short Ss Ls (S d)) as Hle.
  pose proof (prefix_overlap_mono Ss Ls (length Ss) (S d) ltac:(lia)) as Hmono.
  pose proof (prefix_overlap_tail_growth Ss Ls (S d) HL ltac:(lia) ltac:(lia)) as Hgrow.
  unfold agreement.
  set (a := prefix_overlap Ss Ls (S d)) in *.
  set (b := prefix_overlap Ss Ls (length Ss)) in *.
  set (s := length Ss) in *.
  replace (Z.of_nat d + 1)%Z with (Z.of_nat (S d)) by lia.
  split.
  - setoid_replace (inject_Z (Z.of_nat b * (Z.of_nat (S d) - Z.of_nat s))
                    / inject_Z (Z.of_nat (S d)) / inject_Z (Z.of_nat s))%Q
      with (inject_Z (Z.of_nat b * (Z.of_nat (S d) - Z.of_nat s))
            / inject_Z (Z.of_nat (S d) * Z.of_nat s))%Q using relation Qeq.
    2:{ rewrite (inject_Z_mult (Z.of_nat (S d))). field.
        split; apply inject_Z_pos_neq0; lia. }
    assert (0 < inject_Z (Z.of_nat (S d) * Z.of_nat s))%Q as Hpos.
    { change 0%Q with (inject_Z 0). rewrite <- Zlt_Qlt. lia. }
    apply Qle_shift_div_l; [done|]. rewrite Qmult_0_l.
    change 0%Q with (inject_Z 0). rewrite <- Zle_Qle. nia.
  - setoid_replace (inject_Z (Z.of_nat a) / inject_Z (Z.of_nat (S d))
                    + inject_Z (Z.of_nat b * (Z.of_nat (S d) - Z.of_nat s))
                      / inject_Z (Z.of_nat (S d)) / inject_Z (Z.of_nat s))%Q
      with (inject_Z (Z.of_nat s * Z.of_nat a
                      + Z.of_nat b * (Z.of_nat (S d) - Z.of_nat s))
            / inject_Z (Z.of_nat (S d) * Z.of_nat s))%Q using relation Qeq.
    2:{ rewrite inject_Z_plus, !inject_Z_mult. field.
        split; apply inject_Z_pos_neq0; lia. }
    apply Qdiv_inject_Z_bounds; [nia | | lia].
    destruct (decide (b + (S d - s) ≤ s)); nia.
Qed.

Lemma tail_term_bounds Ss Ls p n :
  0 < length Ss → length Ss ≤ n → (0 <= p)%Q → (p <= 1)%Q →
  (0 <= tail_term p Ss Ls n ∧ tail_term p Ss Ls n <= p ^ Z.of_nat n)%Q.
Proof.
  intros Hs Hn Hp0 Hp1.
  pose proof (prefix_overlap_le_short Ss Ls n) as Hle.
  pose proof (prefix_overlap_mono Ss Ls (length Ss) n Hn) as Hmono.
  destruct (Qpower_nat_bounds p n Hp0 Hp1) as [Hq0 Hq1].
  unfold tail_term.
  set (a := prefix_overlap Ss Ls n) in *.
  set (b := prefix_overlap Ss Ls (length Ss)) in *.
  set (s := length Ss) in *.
  assert (inject_Z (Z.of_nat a - Z.of_nat b) / inject_Z (Z.of_nat n)
          + inject_Z (Z.of_nat b) / inject_Z (Z.of_nat s)
          == inject_Z (Z.of_nat s * (Z.of_nat a - Z.of_nat b) + Z.of_nat n * Z.of_nat b)
             / inject_Z (Z.of_nat n * Z.of_nat s))%Q as ->.
  { rewrite inject_Z_plus, !inject_Z_mult. field.
    split; apply inject_Z_pos_neq0; lia. }
  destruct (Qdiv_inject_Z_bounds
              (Z.of_nat s * (Z.of_nat a - Z.of_nat b) + Z.of_nat n * Z.of_nat b)
              (Z.of_nat n * Z.of_nat s)) as [Hc0 Hc1]; [nia | nia | nia |].
  split.
  - by apply Qmult_le_0_compat.
  - apply Qle_trans with (1 * p ^ Z.of_nat n)%Q; [|rewrite Qmult_1_l; apply Qle_refl].
    by apply Qmult_le_compat_r.
Qed.

Lemma ext_depth_term_bounds Ss Ls p d :
  NoDup Ls → 0 < length Ss → d < length Ls → (0 <= p)%Q → (p <= 1)%Q →
  (0 <= (1 - p) * p ^ Z.of_nat d * agreement Ss Ls d + disjoint_term p Ss Ls d
   ∧ (1 - p) * p ^ Z.of_nat d * agreement Ss Ls d + disjoint_term p Ss Ls d
     <= (1 - p) * p ^ Z.of_nat d * 1)%Q.
Proof.
  intros HL Hs Hd Hp0 Hp1.
  destruct (weighted_term_bounds Ss Ls p d Hp0 Hp1) as [Hw0 Hw1].
  unfold disjoint_term. case_bool_decide as Hds.
  - split; lra.
  - destruct (tail_depth_bound Ss Ls d HL Hs ltac:(lia) Hd) as [Hc0 Hc1].
    destruct (Qpower_nat_bounds p d Hp0 Hp1) as [Hq0 Hq1].
    assert (0 <= (1 - p) * p ^ Z.of_nat d)%Q as Hf.
    { apply Qmult_le_0_compat; [lra | done]. }
    set (f := ((1 - p) * p ^ Z.of_nat d)%Q) in *.
    set (c := (inject_Z _ / _ / _)%Q) in *.
    set (g := agreement Ss Ls d) in *.
    split.
    + assert (0 <= f * c)%Q by (by apply Qmult_le_0_compat). lra.
    + assert (f * (g + c) <= f * 1)%Q as Hle.
      { rewrite !(Qmult_comm f). by apply Qmult_le_compat_r. }
      lra.
Qed.

(** X9: on lists without duplicates, both non-empty and the longer with at
    least 2 items, the score of [rbo_ext] lies in [[0,1]] whenever
    [0 <= p <= 1]. *)
Theorem rbo_ext_score_bounds Sl Tl self p :
  RankingSimilarity_init Sl Tl = Ok self → Sl ≠ [] → Tl ≠ [] →
  2 ≤ length Sl `max` length Tl → (0 <= p)%Q → (p <= 1)%Q →
  ∃ v, rbo_ext self p = Ok v ∧ (0 <= v)%Q ∧ (v <= 1)%Q.
Proof.
  intros Hinit HSne HTne Hmax Hp0 Hp1.
  destruct (short_long self) as [Ss Ls] eqn:Hsl.
  destruct (short_long_init Sl Tl self Ss Ls Hinit Hsl) as (HS & HL & Hle & Hmin & Hlmax).
  assert (0 < length Ss) as Hs.
  { destruct Sl, Tl; simpl in *; try done; lia. }
  destruct (rbo_ext_value Sl Tl self Ss Ls p Hinit Hsl Hs ltac:(lia))
    as (v & Hv & Hveq).
  exists v. split; [done|]. rewrite Hveq.
  unfold weighted_overlap. rewrite Qsum_plus.
  destruct (tail_term_bounds Ss Ls p (length Ls) Hs Hle Hp0 Hp1) as [Ht0 Ht1].
  assert (0 <= Qsum (λ i, (1 - p) * p ^ Z.of_nat i * agreement Ss Ls i
                          + disjoint_term p Ss Ls i) (length Ls))%Q as Hs0.
  { apply Qsum_nonneg. intros i Hi. by apply ext_depth_term_bounds. }
  assert (Qsum (λ i, (1 - p) * p ^ Z.of_nat i * agreement Ss Ls i
                     + disjoint_term p Ss Ls i) (length Ls)
          <= 1 - p ^ Z.of_nat (length Ls))%Q as Hs1.
  { rewrite <- Qsum_geometric. apply Qsum_le. intros i Hi.
    by apply ext_depth_term_bounds. }
  split; lra.
Qed.

(** X10: on lists without duplicates that share no item, both non-empty and
    the longer with at least 2 items, [rbo_ext] returns 0, for every [p]
    with [0 <= p <= 1]. *)
Theorem rbo_ext_disjoint_lists Sl Tl self p :
  RankingSimilarity_init Sl Tl = Ok self → Sl ≠ [] → Tl ≠ [] →
  2 ≤ length Sl `max` length Tl →
  (∀ x, x ∈ Sl → x ∉ Tl) →
  (0 <= p)%Q → (p <= 1)%Q →
  ∃ v, rbo_ext self p = Ok v ∧ (v == 0)%Q.
Proof.
  intros Hinit HSne HTne Hmax Hdisj _ _.
  destruct (short_long self) as [Ss Ls] eqn:Hsl.
  destruct (short_long_init Sl Tl self Ss Ls Hinit Hsl) as (HS & HL & Hle & Hmin & Hlmax).
  assert (0 < length Ss) as Hs.
  { destruct Sl, Tl; simpl in *; try done; lia. }
  assert (∀ x, x ∈ Ss → x ∉ Ls) as Hdisj'.
  { destruct (init_Ok _ _ _ Hinit) as (_ & _ & ->).
    unfold short_long in Hsl. simpl in Hsl.
    case_bool_decide; injection Hsl as <- <-; [|done].
    intros x Hx Hx'. by apply (Hdisj x). }
  destruct (rbo_ext_value Sl Tl self Ss Ls p Hinit Hsl Hs ltac:(lia))
    as (v & Hv & Hveq).
  exists v. split; [done|]. rewrite Hveq.
  unfold weighted_overlap, tail_term.
  rewrite (Qsum_ext _ (λ _, 0%Q)).
  2:{ intros i Hi. rewrite agreement_disjoint by done. ring. }
  rewrite (Qsum_ext (disjoint_term p Ss Ls) (λ _, 0%Q)).
  2:{ intros i Hi. unfold disjoint_term. case_bool_decide; [reflexivity|].
      rewrite prefix_overlap_disjoint by done.
      change (Z.of_nat 0) with 0%Z. rewrite Z.mul_0_l.
      change (inject_Z 0) with 0%Q. unfold Qdiv. ring. }
  rewrite !prefix_overlap_disjoint by done. rewrite Qsum_zeros.
  change (Z.of_nat 0 - Z.of_nat 0)%Z with 0%Z. change (Z.of_nat 0) with 0%Z.
  change (inject_Z 0) with 0%Q. unfold Qdiv. ring.
Qed.

End ExtBounds.

(** ** [ProgressPrintOut] *)

Lemma traced_bind_snd {X Y} (m : traced X) (f : X → traced Y) :
  (traced_bind m f).2 = m.2 ≫= (λ x, (f x).2).
Proof. destruct m as [out [x|e]]; simpl; [|done]. by destruct (f x). Qed.

Lemma traced_bind_Ok {X Y} (out : list string) (x : X) (f : X → traced Y) :
  traced_bind (out, Ok x) f = (out ++ (f x).1, (f x).2).
Proof. simpl. by destruct (f x). Qed.

Lemma traced_bind_silent_Ok {X Y} (x : X) (f : X → traced Y) :
  traced_bind (silent (Ok x)) f = f x.
Proof. unfold silent. rewrite traced_bind_Ok. simpl. by destruct (f x). Qed.

Lemma progress_line_100 :
  String.concat " " [CR; "Current progress: 100 %..."] +:+ "" = progress_line 100.
Proof. reflexivity. Qed.

Lemma string_app_nil_r (s : string) : s +:+ "" = s.
Proof.
  induction s as [|c s IH]; [done|].
  change (String c s +:+ "") with (String c (s +:+ "")). by rewrite IH.
Qed.

Lemma print_progress_line (cur : Z) :
  print [CR; "Current progress: " +:+ pretty cur +:+ " %..."] ""
  = ([progress_line cur], Ok ()).
Proof. unfold print, progress_line. by rewrite string_app_nil_r. Qed.

(** What one call of [printout] writes and returns, when [_total] is not 0. *)
Lemma printout_eq (self : ProgressPrintOut) (i delta : Z) :
  pp_total self ≠ 0%Z →
  printout self i delta =
    let cur := ((100 * i) `div` pp_total self)%Z in
    ((if (pp_old self + delta <=? cur)%Z then [progress_line cur] else [])
       ++ (if (i =? pp_total self - 1)%Z
           then [progress_line 100; LF +:+ "Finished!" +:+ LF] else []),
     Ok {| pp_old := if (pp_old self + delta <=? cur)%Z then cur else pp_old self;
           pp_total := pp_total self |}).
Proof.
  intros Htot. unfold printout, floordiv.
  destruct (Z.eqb_spec (pp_total self) 0) as [?|_]; [done|].
  rewrite traced_bind_silent_Ok. cbv zeta. rewrite print_progress_line.
  destruct self as [old total]. cbn [pp_old pp_total] in *.
  destruct (old + delta <=? (100 * i) `div` total)%Z;
    cbn [traced_bind traced_ret pp_total];
    destruct (i =? total - 1)%Z; reflexivity.
Qed.

(** X11: [printout] raises [ZeroDivisionError], having written nothing,
    exactly when [_total] is 0.  Otherwise it returns, keeps [_total], leaves
    [_old] as it is or moves it to the percentage [100*i // _total] when
    this is at least [_old + delta], and writes the closing line exactly
    when [i == _total - 1]. *)
Theorem printout_outcome (self : ProgressPrintOut) (i delta : Z) :
  (pp_total self = 0%Z → printout self i delta = ([], Raise ZeroDivisionError))
  ∧ (pp_total self ≠ 0%Z →
     ∃ out self', printout self i delta = (out, Ok self')
       ∧ pp_total self' = pp_total self
       ∧ (pp_old self' = pp_old self
          ∨ (pp_old self' = ((100 * i) `div` pp_total self)%Z
             ∧ (pp_old self + delta <= pp_old self')%Z))
       ∧ (LF +:+ "Finished!" +:+ LF ∈ out ↔ i = (pp_total self - 1)%Z)).
Proof.
  split.
  - intros Htot. unfold printout, floordiv. by rewrite Htot.
  - intros Htot. rewrite (printout_eq self i delta Htot). cbv zeta.
    eexists _, _. split; [done|]. simpl. split; [done|]. split.
    + destruct (Z.leb_spec (pp_old self + delta) ((100 * i) `div` pp_total self));
        [right | left]; done.
    + destruct (Z.eqb_spec i (pp_total self - 1)) as [Hi|Hi].
      * split; [done|]. intros _. set_solver.
      * split; [|done]. rewrite app_nil_r.
        destruct (_ <=? _)%Z; [|set_solver].
        rewrite list_elem_of_singleton. unfold progress_line, LF, CR. simpl.
        discriminate.
Qed.

(** ** What the methods write *)

Lemma range_elem_nonempty (a b d : Z) : d ∈ range a b → (a < b)%Z.
Proof. intros Hd%elem_of_range. lia. Qed.

Lemma with_progress_snd {St} (body : Z → St → result St) (d : Z)
    (PP : ProgressPrintOut) (st : St) :
  pp_total PP ≠ 0%Z →
  ∃ PP', pp_total PP' = pp_total PP
    ∧ (with_progress body d (PP, st)).2 = pair PP' <$> body d st.
Proof.
  intros Htot. unfold with_progress. rewrite traced_bind_snd.
  change ((PP, st).1) with PP. change ((PP, st).2) with st.
  rewrite (printout_eq PP d 10 Htot). cbv zeta.
  eexists. split; [|cbn [snd]; rewrite bind_Ok, traced_bind_snd;
                    unfold silent; cbn [snd]; by destruct (body d st)].
  done.
Qed.

(** A loop with [printout] at the start of each turn has the outcome of the
    loop without it, provided [_total] is not 0 when there is a turn. *)
Lemma with_progress_outcome {St} (body : Z → St → result St) (ds : list Z)
    (PP : ProgressPrintOut) (st : St) :
  (ds ≠ [] → pp_total PP ≠ 0%Z) →
  snd <$> (for_each_traced (with_progress body) ds (PP, st)).2
  = for_each body ds st.
Proof.
  revert PP st. induction ds as [|d ds IH]; intros PP st Htot; [done|].
  cbn [for_each_traced for_each].
  rewrite traced_bind_snd.
  destruct (with_progress_snd body d PP st) as (PP' & HPP' & ->); [by apply Htot|].
  destruct (body d st) as [st1|e]; [|done].
  cbn [fmap result_fmap]. rewrite !bind_Ok.
  apply IH. intros _. rewrite HPP'. by apply Htot.
Qed.

Section PrintingOutcome.
Context {E : Type} `{Countable E}.

Lemma rbo_printing_outcome (self : RankingSimilarity E) k p ext :
  (rbo_printing self k p ext).2 = rbo self k p ext.
Proof.
  unfold rbo_printing, rbo, rbo_arrays. rewrite traced_bind_snd.
  cbn [silent snd].
  destruct (rbo_weights (effective_depth self k) p) as [ws|e]; [|done].
  rewrite !bind_Ok, traced_bind_snd. cbn [silent snd].
  destruct (rbo_first self (effective_depth self k) ws) as [st0|e]; [|done].
  rewrite !bind_Ok, traced_bind_snd.
  rewrite <- (with_progress_outcome (rbo_body self p ws) _
                (ProgressPrintOut_init (effective_depth self k)) st0).
  2:{ intros Hne. cbn [ProgressPrintOut_init pp_total].
      destruct (range 1 (effective_depth self k)) as [|d ds] eqn:Hr; [done|].
      assert (d ∈ range 1 (effective_depth self k)) as Hd by (rewrite Hr; set_solver).
      apply range_elem_nonempty in Hd. lia. }
  destruct (for_each_traced _ _ _).2 as [[PP st]|e]; [|done].
  by cbn [fmap result_fmap snd].
Qed.

Lemma rbo_ext_printing_outcome (self : RankingSimilarity E) p :
  (rbo_ext_printing self p).2 = rbo_ext self p.
Proof.
  unfold rbo_ext_printing, rbo_ext, rbo_ext_arrays.
  destruct (short_long self) as [Ss Ls]. rewrite traced_bind_snd.
  cbn [silent snd].
  destruct (rbo_ext_first Ss Ls (Z.of_nat (length Ls)) p) as [st0|e]; [|done].
  rewrite !bind_Ok, traced_bind_snd.
  rewrite <- (with_progress_outcome (rbo_ext_body Ss Ls (Z.of_nat (length Ss)) p) _
                (ProgressPrintOut_init (Z.of_nat (length Ls))) st0).
  2:{ intros Hne. cbn [ProgressPrintOut_init pp_total].
      destruct (range 1 (Z.of_nat (length Ls))) as [|d ds] eqn:Hr; [done|].
      assert (d ∈ range 1 (Z.of_nat (length Ls))) as Hd by (rewrite Hr; set_solver).
      apply range_elem_nonempty in Hd. lia. }
  destruct (for_each_traced _ _ _).2 as [[PP st]|e]; [|done].
  by cbn [fmap result_fmap snd].
Qed.

(** X12: the progress reports never change the outcome of [rbo] or of
    [rbo_ext]: with [PP.printout(d)] at the start of each turn of their
    loops, the result or the exception is the same as without, on every
    input ([printout] divides by the loop bound, which is at least 2 when
    the loop has a turn). *)
Theorem printing_keeps_outcome (self : RankingSimilarity E) k p ext :
  (rbo_printing self k p ext).2 = rbo self k p ext
  ∧ (rbo_ext_printing self p).2 = rbo_ext self p.
Proof. split; [apply rbo_printing_outcome | apply rbo_ext_printing_outcome]. Qed.

End PrintingOutcome.

Lemma for_each_traced_app {St} (body : Z → St → traced St) (ds1 ds2 : list Z)
    (st : St) :
  for_each_traced body (ds1 ++ ds2) st
  = traced_bind (for_each_traced body ds1 st) (for_each_traced body ds2).
Proof.
  revert st. induction ds1 as [|d ds1 IH]; intros st.
  - simpl. by destruct (for_each_traced body ds2 st).
  - cbn [app for_each_traced]. destruct (body d st) as [out [st1|e]]; [|done].
    rewrite !traced_bind_Ok, IH.
    destruct (for_each_traced body ds1 st1) as [out1 [st2|e]]; [|done].
    rewrite !traced_bind_Ok. cbn [fst snd].
    rewrite (traced_bind_Ok (out ++ out1)). by rewrite app_assoc.
Qed.

(** The rule for a writing loop over [range(a, b)]: the invariant relates
    what has been written to the state. *)
Lemma for_each_traced_range {St} (body : Z → St → traced St)
    (I : nat → list string → St → Prop) (n a : nat) (out0 : list string) (st : St) :
  I a out0 st →
  (∀ i out st, a ≤ i < a + n → I i out st →
     ∃ out' st', body (Z.of_nat i) st = (out', Ok st') ∧ I (S i) (out ++ out') st') →
  ∃ out st', for_each_traced body (range (Z.of_nat a) (Z.of_nat (a + n))) st
             = (out, Ok st')
             ∧ I (a + n) (out0 ++ out) st'.
Proof.
  revert a out0 st. induction n as [|n IH]; intros a out0 st Hst Hbody.
  - rewrite range_nil by lia. exists [], st. split; [done|].
    by rewrite app_nil_r, Nat.add_0_r.
  - rewrite range_cons by lia. cbn [for_each_traced].
    destruct (Hbody a out0 st) as (out1 & st1 & Hb & Hst1); [lia | done |].
    rewrite Hb, traced_bind_Ok.
    destruct (IH (S a) (out0 ++ out1) st1) as (out2 & st2 & Hl & Hst2); [done | |].
    + intros i out st' Hi. apply Hbody. lia.
    + replace (Z.of_nat a + 1)%Z with (Z.of_nat (S a)) by lia.
      replace (Z.of_nat (a + S n)) with (Z.of_nat (S a + n)) by lia.
      rewrite Hl. cbn [fst snd]. exists (out1 ++ out2), st2. split; [done|].
      replace (a + S n) with (S a + n) by lia. by rewrite app_assoc.
Qed.

Lemma with_progress_Ok {St} (body : Z → St → result St) (d : Z)
    (PP PP1 : ProgressPrintOut) (st st1 : St) (out1 : list string) :
  printout PP d 10 = (out1, Ok PP1) → body d st = Ok st1 →
  with_progress body d (PP, st) = (out1, Ok (PP1, st1)).
Proof.
  intros Hp Hb. unfold with_progress.
  change ((PP, st).1) with PP. change ((PP, st).2) with st.
  rewrite Hp, Hb. unfold silent, traced_ret. simpl. by rewrite app_nil_r.
Qed.

(** The reports of a loop do not depend on its body, as long as the body
    does not raise. *)
Lemma with_progress_report {St} (body : Z → St → result St) (ds : list Z)
    (PP PP' : ProgressPrintOut) (st st' : St) (out : list string) :
  for_each body ds st = Ok st' →
  for_each_traced (λ d PP, printout PP d 10) ds PP = (out, Ok PP') →
  for_each_traced (with_progress body) ds (PP, st) = (out, Ok (PP', st')).
Proof.
  revert PP st out. induction ds as [|d ds IH]; intros PP st out Hbody Hprint.
  - simpl in *. unfold traced_ret in *. congruence.
  - cbn [for_each for_each_traced] in *.
    destruct (body d st) as [st1|e] eqn:Hb; [|done]. rewrite bind_Ok in Hbody.
    destruct (printout PP d 10) as [out1 [PP1|e]] eqn:Hp; [|done].
    rewrite traced_bind_Ok in Hprint.
    destruct (for_each_traced (λ d PP, printout PP d 10) ds PP1)
      as [out2 [PP2|e]] eqn:Hrest; [|done].
    cbn [fst snd] in Hprint. injection Hprint as <- <-.
    rewrite (with_progress_Ok body d PP PP1 st st1 out1 Hp Hb), traced_bind_Ok.
    by rewrite (IH PP1 st1 out2 Hbody Hrest).
Qed.

Lemma percentage_bounds (i K : Z) :
  (1 <= i)%Z → (i < K)%Z → (0 <= (100 * i) `div` K <= 99)%Z.
Proof.
  intros Hi HK. split.
  - apply Z.div_pos; lia.
  - assert ((100 * i) `div` K < 100)%Z; [|lia].
    apply Z.div_lt_upper_bound; lia.
Qed.

(** The first test of [printout] keeps the invariant of the reports. *)
Lemma progress_inv_step (K i : Z) (out : list string) (PP : ProgressPrintOut) :
  (1 <= i)%Z → (i < K)%Z → progress_inv K out PP →
  let cur := ((100 * i) `div` K)%Z in
  progress_inv K
    (out ++ if (pp_old PP + 10 <=? cur)%Z then [progress_line cur] else [])
    {| pp_old := if (pp_old PP + 10 <=? cur)%Z then cur else pp_old PP;
       pp_total := pp_total PP |}.
Proof.
  intros Hi HK (Htot & Hold & cs & -> & Hcs & Hgap & Hlast). cbv zeta.
  pose proof (percentage_bounds i K Hi HK) as Hcur.
  destruct (Z.leb_spec (pp_old PP + 10) ((100 * i) `div` K)) as [Hle|Hgt].
  - split; [done|]. split; [done|].
    exists (cs ++ [(100 * i) `div` K])%Z. split_and!.
    + by rewrite fmap_app.
    + apply Forall_app. split; [done|]. apply Forall_singleton. lia.
    + intros j a b Ha Hb.
      destruct (decide (S j < length cs)) as [Hj|Hj].
      * rewrite lookup_app_l in Ha, Hb by lia. by apply (Hgap j).
      * assert (S j = length cs) as Hj'.
        { apply lookup_lt_Some in Hb. rewrite length_app in Hb. simpl in Hb. lia. }
        rewrite lookup_app_l in Ha by lia.
        rewrite lookup_app_r in Hb by lia.
        replace (S j - length cs) with 0 in Hb by lia. injection Hb as <-.
        assert (last cs = Some a) as Hl.
        { rewrite last_lookup. rewrite <- Ha. f_equal. lia. }
        specialize (Hlast a Hl). lia.
    + intros c. rewrite last_snoc. intros [= <-]. simpl. lia.
  - rewrite app_nil_r. split; [done|]. split; [done|]. by exists cs.
Qed.

(** The reports of a whole loop over [range(1, K)]. *)
Lemma progress_loop_report (K : Z) :
  ∃ out PP', for_each_traced (λ d PP, printout PP d 10) (range 1 K)
               (ProgressPrintOut_init K) = (out, Ok PP')
    ∧ progress_report K out.
Proof.
  unfold progress_report. case_bool_decide as HK.
  { rewrite range_nil by lia. by eexists _, _. }
  rewrite (range_app 1 (K - 1) K) by lia.
  rewrite (range_cons (K - 1) K), (range_nil (K - 1 + 1) K) by lia.
  rewrite for_each_traced_app.
  destruct (for_each_traced_range (λ d PP, printout PP d 10)
              (λ _, progress_inv K) (Z.to_nat K - 2) 1 [] (ProgressPrintOut_init K))
    as (out1 & PP1 & Hloop & Hinv).
  { split; [done|]. split; [simpl; lia|]. exists []. split_and!; done. }
  { intros i out PP Hi Hinv. pose proof Hinv as (Htot & _).
    rewrite printout_eq by lia. cbv zeta. rewrite Htot.
    destruct (Z.eqb_spec (Z.of_nat i) (K - 1)) as [?|_]; [lia|].
    eexists _, _. split; [done|]. rewrite app_nil_r.
    pose proof (progress_inv_step K (Z.of_nat i) out PP) as Hstep.
    rewrite Htot in Hstep. apply Hstep; (lia || done). }
  replace (Z.of_nat (1 + (Z.to_nat K - 2))) with (K - 1)%Z in Hloop by lia.
  change (Z.of_nat 1) with 1%Z in Hloop. rewrite Hloop, traced_bind_Ok.
  rewrite app_nil_l in Hinv. pose proof Hinv as (Htot & _).
  cbn [for_each_traced]. rewrite printout_eq by lia. cbv zeta. rewrite Htot.
  rewrite Z.eqb_refl, traced_bind_Ok. cbn [traced_ret fst snd].
  eexists _, _. split; [done|]. rewrite app_nil_r.
  pose proof (progress_inv_step K (K - 1) out1 PP1) as Hstep.
  rewrite Htot in Hstep.
  destruct Hstep as (_ & _ & cs & Hout & Hcs & Hgap & _); [lia | lia | done |].
  exists cs. split_and!; try done.
  rewrite app_assoc. by rewrite Hout.
Qed.

Section PrintingReport.
Context {E : Type} `{Countable E}.
Implicit Types Sl Tl : list E.

(** X13: what [rbo] writes on valid input.  With an effective depth of 1
    the loop has no turn and nothing is written; otherwise [rbo] writes
    progress lines for percentages between 10 and 99, each at least 10 above
    the one before (so at most 9 of them), then the line for 100 % and the
    closing line, once each. *)
Theorem rbo_printing_report Sl Tl self k p ext :
  RankingSimilarity_init Sl Tl = Ok self → Sl ≠ [] → Tl ≠ [] →
  valid_depth k → valid_p p →
  progress_report (effective_depth self k) (rbo_printing self k p ext).1.
Proof.
  intros Hinit HS HT Hk Hp.
  destruct (rbo_arrays_inv Sl Tl self k p Hinit HS HT Hk Hp)
    as (K & st & HK & _ & _ & Hst & _).
  unfold rbo_arrays in Hst. unfold rbo_printing.
  destruct (rbo_weights (effective_depth self k) p) as [ws|e]; [|done].
  rewrite bind_Ok in Hst. rewrite traced_bind_silent_Ok.
  destruct (rbo_first self (effective_depth self k) ws) as [st0|e]; [|done].
  rewrite bind_Ok in Hst. rewrite traced_bind_silent_Ok.
  destruct (progress_loop_report (effective_depth self k)) as (out & PP' & Hout & Hrep).
  rewrite (with_progress_report _ _ _ PP' st0 st out Hst Hout).
  rewrite traced_bind_Ok. cbn [fst snd silent]. by rewrite app_nil_r.
Qed.

(** X14: what [rbo_ext] writes when both lists are non-empty and
    [0 <= p <= 1], [l] being the length of the longer list: nothing when
    [l] is 1; otherwise progress lines for percentages between 10 and 99,
    each at least 10 above the one before, then the line for 100 % and the
    closing line, once each. *)
Theorem rbo_ext_printing_report (self : RankingSimilarity E) p :
  0 < length (self_S self) `min` length (self_T self) →
  (0 <= p)%Q → (p <= 1)%Q →
  progress_report (Z.of_nat (length (self_S self) `max` length (self_T self)))
    (rbo_ext_printing self p).1.
Proof.
  intros Hmin _ _.
  destruct (short_long_spec self) as (Ss & Ls & Hsl & Hle & HSs & HLs).
  destruct (rbo_ext_loop_inv Ss Ls p) as (st & Hst & _); [lia | lia |].
  unfold rbo_ext_printing. rewrite Hsl, <- HLs.
  destruct (rbo_ext_first Ss Ls (Z.of_nat (length Ls)) p) as [st0|e]; [|done].
  rewrite bind_Ok in Hst. rewrite traced_bind_silent_Ok.
  destruct (progress_loop_report (Z.of_nat (length Ls))) as (out & PP' & Hout & Hrep).
  rewrite (with_progress_report _ _ _ PP' st0 st out Hst Hout).
  rewrite traced_bind_Ok. cbn [fst snd silent]. by rewrite app_nil_r.
Qed.

End PrintingReport.

(** ** [kendall] *)

Section KendallFacts.
Context {E : Type} `{Countable E} (R : relation E) `{!RelDecision R}.
Implicit Types L Sl Tl : list E.

(** The dict built by [common_ranking]. *)
Lemma tmp_dict_lookup L (C : gset E) (x : E) (i : Z) :
  NoDup L →
  foldl (λ (m : gmap E Z) ix,
           if bool_decide (ix.2 ∈ C) then <[ix.2 := ix.1]> m else m)
        ∅ (imap (λ i x, (Z.of_nat i, x)) L) !! x = Some i
  ↔ x ∈ C ∧ ∃ n, i = Z.of_nat n ∧ L !! n = Some x.
Proof.
  induction L as [|y L IH] using rev_ind; intros HL.
  { simpl. rewrite lookup_empty. split; [done|]. by intros (_ & n & _ & ?). }
  apply NoDup_app in HL as (HL & Hfresh & _).
  rewrite imap_app, foldl_app. simpl. rewrite Nat.add_0_r.
  case_bool_decide as Hy.
  - destruct (decide (x = y)) as [->|Hne].
    + rewrite lookup_insert_eq. split.
      * intros [= <-]. split; [done|]. exists (length L). split; [done|].
        by rewrite lookup_app_r, Nat.sub_diag by lia.
      * intros (_ & n & -> & Hn). f_equal.
        destruct (decide (n < length L)) as [Hlt|Hge].
        { rewrite lookup_app_l in Hn by done.
          apply list_elem_of_lookup_2 in Hn. destruct (Hfresh y Hn). set_solver. }
        apply lookup_lt_Some in Hn. rewrite length_app in Hn. simpl in Hn.
        f_equal. lia.
    + rewrite lookup_insert_ne by done. rewrite (IH HL). split.
      * intros (HxC & n & -> & Hn). split; [done|]. exists n. split; [done|].
        by apply lookup_app_l_Some.
      * intros (HxC & n & -> & Hn). split; [done|]. exists n. split; [done|].
        apply lookup_app_Some in Hn as [Hn|[_ Hn]]; [done|].
        apply list_lookup_singleton_Some in Hn as [_ ?]. congruence.
  - rewrite (IH HL). split.
    + intros (HxC & n & -> & Hn). split; [done|]. exists n. split; [done|].
      by apply lookup_app_l_Some.
    + intros (HxC & n & -> & Hn). split; [done|]. exists n. split; [done|].
      apply lookup_app_Some in Hn as [Hn|[_ Hn]]; [done|].
      apply list_lookup_singleton_Some in Hn as [_ ?]. congruence.
Qed.

(** The rank list of [common_ranking]: the common items in increasing
    order, each replaced by its position in [L]. *)
Lemma common_ranking_spec `{!PartialOrder R, !Total R} L (C : gset E) :
  NoDup L → (∀ x, x ∈ C → x ∈ L) →
  ∃ items, Sorted R items ∧ items ≡ₚ elements C
    ∧ Forall2 (λ x r, ∃ n, r = Some (Z.of_nat n) ∧ L !! n = Some x)
              items (common_ranking R L C).
Proof.
  intros HL HC. unfold common_ranking.
  set (m := foldl _ ∅ _).
  assert (∀ x i, m !! x = Some i ↔ x ∈ C ∧ ∃ n, i = Z.of_nat n ∧ L !! n = Some x)
    as Hm by (intros x i; by apply tmp_dict_lookup).
  exists (merge_sort R (map_to_list m).*1).
  assert (∀ x, x ∈ (map_to_list m).*1 ↔ x ∈ C) as Hkeys.
  { intros x. rewrite list_elem_of_fmap. split.
    - intros ([y i] & -> & Hin). apply elem_of_map_to_list in Hin.
      by apply Hm in Hin as [? _].
    - intros HxC. destruct (list_elem_of_lookup_1 L x (HC x HxC)) as [n Hn].
      exists (x, Z.of_nat n). split; [done|].
      apply elem_of_map_to_list, Hm. eauto. }
  split_and!.
  - by apply Sorted_merge_sort.
  - rewrite merge_sort_Permutation.
    apply NoDup_Permutation; [apply NoDup_fst_map_to_list | apply NoDup_elements |].
    intros x. by rewrite Hkeys, elem_of_elements.
  - apply Forall2_fmap_r, Forall_Forall2_diag, Forall_forall.
    intros x Hx. rewrite merge_sort_Permutation in Hx. apply Hkeys in Hx.
    destruct (list_elem_of_lookup_1 L x (HC x Hx)) as [n Hn].
    exists n. split; [|done]. apply Hm. eauto.
Qed.


(** X16: on non-empty lists without duplicates, the two rank lists that
    [kendall] hands to [kendalltau] are aligned: there is a list of items,
    the common items of [S] and [T] in increasing order and without
    repetition, such that the j-th entry of [S_rank] is the position in [S]
    of the j-th item and the j-th entry of [T_rank] its position in [T].
    Both lists have the length of this list of items and hold no [None]. *)
Theorem kendall_ranks_aligned `{!PartialOrder R, !Total R} Sl Tl self :
  RankingSimilarity_init Sl Tl = Ok self → Sl ≠ [] → Tl ≠ [] →
  ∃ items S_rank T_rank, kendall_ranks R self = Ok (S_rank, T_rank)
    ∧ Sorted R items ∧ NoDup items
    ∧ (∀ x, x ∈ items ↔ x ∈ Sl ∧ x ∈ Tl)
    ∧ Forall2 (λ x r, ∃ n, r = Some (Z.of_nat n) ∧ Sl !! n = Some x) items S_rank
    ∧ Forall2 (λ x r, ∃ n, r = Some (Z.of_nat n) ∧ Tl !! n = Some x) items T_rank.
Proof.
  intros (HS & HT & ->)%init_Ok HSne HTne.
  unfold kendall_ranks. cbn [N_S N_T self_S self_T].
  rewrite !truediv_ok
    by (apply inject_Z_pos_neq0; destruct Sl, Tl; simpl in *; (done || lia)).
  rewrite !bind_Ok.
  set (C := list_to_set Sl ∩ list_to_set Tl : gset E).
  destruct (common_ranking_spec Sl C HS) as (items & Hsorted & Hperm & HSr);
    [subst C; set_solver|].
  destruct (common_ranking_spec Tl C HT) as (items' & Hsorted' & Hperm' & HTr);
    [subst C; set_solver|].
  assert (items' = items) as ->.
  { apply (Sorted_unique R); [done | done |]. by rewrite Hperm, Hperm'. }
  exists items, (common_ranking R Sl C), (common_ranking R Tl C).
  split_and!; try done.
  - rewrite Hperm. apply NoDup_elements.
  - intros x. rewrite Hperm, elem_of_elements. subst C. set_solver.
Qed.

End KendallFacts.

(** ** Concrete runs of the further properties *)

(** Each lemma below checks the hypotheses of one of the theorems above on
    the lists of the module's own example (or on small ones) and applies the
    theorem there. *)

Lemma rbo_outcome_witness :
  ∃ self, RankingSimilarity_init abcde edc = Ok self
    ∧ match rbo self (Some 3%Z) (1 # 2) false with
      | Ok _ => valid_p (1 # 2) ∧ (1 <= effective_depth self (Some 3%Z))%Z
      | Raise AssertionError => ¬ valid_p (1 # 2)
      | Raise IndexError =>
          valid_p (1 # 2) ∧ (effective_depth self (Some 3%Z) <= 0)%Z
      | Raise _ => False
      end.
Proof.
  exists (ranking_of abcde edc).
  assert (RankingSimilarity_init abcde edc = Ok (ranking_of abcde edc)) as Hinit
    by (vm_compute; reflexivity).
  split; [assumption|].
  exact (rbo_outcome abcde edc _ (Some 3%Z) (1 # 2) false Hinit).
Defined.

Lemma rbo_score_bounds_witness :
  ∃ self, RankingSimilarity_init abcde edc = Ok self
    ∧ abcde ≠ [] ∧ edc ≠ [] ∧ valid_depth None ∧ valid_p (1 # 2)
    ∧ ∃ v0 v1, rbo self None (1 # 2) false = Ok v0
        ∧ rbo self None (1 # 2) true = Ok v1
        ∧ (0 <= v0)%Q ∧ (v0 <= v1)%Q ∧ (v1 <= 1)%Q.
Proof.
  exists (ranking_of abcde edc).
  assert (RankingSimilarity_init abcde edc = Ok (ranking_of abcde edc)) as Hinit
    by (vm_compute; reflexivity).
  assert (abcde ≠ []) as HS by done.
  assert (edc ≠ []) as HT by done.
  assert (valid_depth None) as Hk by done.
  assert (valid_p (1 # 2)) as Hp by (right; done).
  repeat (split; [assumption|]).
  exact (rbo_score_bounds _ _ _ None (1 # 2) Hinit HS HT Hk Hp).
Defined.

Lemma rbo_weighted_sum_witness :
  ∃ self, RankingSimilarity_init abcde edc = Ok self
    ∧ abcde ≠ [] ∧ edc ≠ [] ∧ valid_depth None ∧ (0 < 1 # 2)%Q ∧ (1 # 2 < 1)%Q
    ∧ ∃ st v, rbo_arrays self None (1 # 2) = Ok st
        ∧ rbo self None (1 # 2) true = Ok v
        ∧ Z.of_nat (length (rbo_A st)) = effective_depth self None
        ∧ (v == Qsum (λ d, (1 - (1 # 2)) * (1 # 2) ^ Z.of_nat d
                           * default 0 (rbo_A st !! d))
                     (length (rbo_A st))
                + (if true
                   then default 0 (last (rbo_A st)) * (1 # 2) ^ effective_depth self None
                   else 0))%Q.
Proof.
  exists (ranking_of abcde edc).
  assert (RankingSimilarity_init abcde edc = Ok (ranking_of abcde edc)) as Hinit
    by (vm_compute; reflexivity).
  assert (abcde ≠ []) as HS by done.
  assert (edc ≠ []) as HT by done.
  assert (valid_depth None) as Hk by done.
  assert (0 < 1 # 2)%Q as Hp0 by done.
  assert (1 # 2 < 1)%Q as Hp1 by done.
  repeat (split; [assumption|]).
  exact (rbo_weighted_sum _ _ _ None (1 # 2) true Hinit HS HT Hk Hp0 Hp1).
Defined.

Lemma rbo_monotone_depth_witness :
  ∃ self, RankingSimilarity_init abcde edc = Ok self
    ∧ abcde ≠ [] ∧ edc ≠ [] ∧ (1 <= 1)%Z ∧ (1 <= 3)%Z
    ∧ (0 < 1 # 2)%Q ∧ (1 # 2 < 1)%Q
    ∧ ∃ v1 v2, rbo self (Some 1%Z) (1 # 2) false = Ok v1
        ∧ rbo self (Some 3%Z) (1 # 2) false = Ok v2 ∧ (v1 <= v2)%Q.
Proof.
  exists (ranking_of abcde edc).
  assert (RankingSimilarity_init abcde edc = Ok (ranking_of abcde edc)) as Hinit
    by (vm_compute; reflexivity).
  assert (abcde ≠ []) as HS by done.
  assert (edc ≠ []) as HT by done.
  assert (1 <= 1)%Z as Hk1 by lia.
  assert (1 <= 3)%Z as Hk2 by lia.
  assert (0 < 1 # 2)%Q as Hp0 by done.
  assert (1 # 2 < 1)%Q as Hp1 by done.
  repeat (split; [assumption|]).
  exact (rbo_monotone_depth _ _ _ 1%Z 3%Z (1 # 2) Hinit HS HT Hk1 Hk2 Hp0 Hp1).
Defined.

Lemma rbo_prefix_only_witness :
  ∃ self self', RankingSimilarity_init abcde edc = Ok self
    ∧ RankingSimilarity_init ["a"; "b"; "x"] ["e"; "d"; "y"; "z"] = Ok self'
    ∧ abcde ≠ [] ∧ edc ≠ [] ∧ valid_depth (Some 2%Z) ∧ valid_p (1 # 2)
    ∧ take (Z.to_nat (effective_depth self (Some 2%Z))) ["a"; "b"; "x"]
      = take (Z.to_nat (effective_depth self (Some 2%Z))) abcde
    ∧ take (Z.to_nat (effective_depth self (Some 2%Z))) ["e"; "d"; "y"; "z"]
      = take (Z.to_nat (effective_depth self (Some 2%Z))) edc
    ∧ ∃ v w, rbo self (Some 2%Z) (1 # 2) true = Ok v
        ∧ rbo self' (Some (effective_depth self (Some 2%Z))) (1 # 2) true = Ok w
        ∧ (v == w)%Q.
Proof.
  exists (ranking_of abcde edc), (ranking_of ["a"; "b"; "x"] ["e"; "d"; "y"; "z"]).
  assert (RankingSimilarity_init abcde edc = Ok (ranking_of abcde edc)) as Hinit
    by (vm_compute; reflexivity).
  assert (RankingSimilarity_init ["a"; "b"; "x"] ["e"; "d"; "y"; "z"]
          = Ok (ranking_of ["a"; "b"; "x"] ["e"; "d"; "y"; "z"])) as Hinit'
    by (vm_compute; reflexivity).
  assert (abcde ≠ []) as HS by done.
  assert (edc ≠ []) as HT by done.
  assert (valid_depth (Some 2%Z)) as Hk by (simpl; lia).
  assert (valid_p (1 # 2)) as Hp by (right; done).
  assert (take (Z.to_nat (effective_depth (ranking_of abcde edc) (Some 2%Z)))
            ["a"; "b"; "x"]
          = take (Z.to_nat (effective_depth (ranking_of abcde edc) (Some 2%Z))) abcde)
    as HtS by reflexivity.
  assert (take (Z.to_nat (effective_depth (ranking_of abcde edc) (Some 2%Z)))
            ["e"; "d"; "y"; "z"]
          = take (Z.to_nat (effective_depth (ranking_of abcde edc) (Some 2%Z))) edc)
    as HtT by reflexivity.
  repeat (split; [assumption|]).
  exact (rbo_prefix_only _ _ _ _ _ _ (Some 2%Z) (1 # 2) true
           Hinit Hinit' HS HT Hk Hp HtS HtT).
Defined.

Lemma rbo_ext_identical_lists_witness :
  ∃ self, RankingSimilarity_init abcde abcde = Ok self ∧ 2 ≤ length abcde
    ∧ (0 <= 98 # 100)%Q ∧ (98 # 100 <= 1)%Q
    ∧ ∃ v, rbo_ext self (98 # 100) = Ok v ∧ (v == 1)%Q.
Proof.
  exists (ranking_of abcde abcde).
  assert (RankingSimilarity_init abcde abcde = Ok (ranking_of abcde abcde)) as Hinit
    by (vm_compute; reflexivity).
  assert (2 ≤ length abcde) as Hl by (simpl; lia).
  assert (0 <= 98 # 100)%Q as Hp0 by done.
  assert (98 # 100 <= 1)%Q as Hp1 by done.
  repeat (split; [assumption|]).
  exact (rbo_ext_identical_lists _ _ (98 # 100) Hinit Hl Hp0 Hp1).
Defined.

Lemma rbo_ext_formula_witness :
  ∃ self, RankingSimilarity_init abcde edc = Ok self
    ∧ short_long self = (edc, abcde) ∧ 0 < length edc ∧ 2 ≤ length abcde
    ∧ (0 <= 1 # 2)%Q ∧ (1 # 2 <= 1)%Q
    ∧ ∃ v, rbo_ext self (1 # 2) = Ok v
        ∧ (v == Qsum (λ d, (1 - (1 # 2)) * (1 # 2) ^ Z.of_nat d
                           * agreement edc abcde d) (length abcde)
                + Qsum (disjoint_term (1 # 2) edc abcde) (length abcde)
                + tail_term (1 # 2) edc abcde (length abcde))%Q.
Proof.
  exists (ranking_of abcde edc).
  assert (RankingSimilarity_init abcde edc = Ok (ranking_of abcde edc)) as Hinit
    by (vm_compute; reflexivity).
  assert (short_long (ranking_of abcde edc) = (edc, abcde)) as Hsl by reflexivity.
  assert (0 < length edc) as Hs by (simpl; lia).
  assert (2 ≤ length abcde) as Hl by (simpl; lia).
  assert (0 <= 1 # 2)%Q as Hp0 by done.
  assert (1 # 2 <= 1)%Q as Hp1 by done.
  repeat (split; [assumption|]).
  exact (rbo_ext_formula _ _ _ _ _ (1 # 2) Hinit Hsl Hs Hl Hp0 Hp1).
Defined.

Lemma rbo_ext_score_bounds_witness :
  ∃ self, RankingSimilarity_init abcde edc = Ok self
    ∧ abcde ≠ [] ∧ edc ≠ [] ∧ 2 ≤ length abcde `max` length edc
    ∧ (0 <= 98 # 100)%Q ∧ (98 # 100 <= 1)%Q
    ∧ ∃ v, rbo_ext self (98 # 100) = Ok v ∧ (0 <= v)%Q ∧ (v <= 1)%Q.
Proof.
  exists (ranking_of abcde edc).
  assert (RankingSimilarity_init abcde edc = Ok (ranking_of abcde edc)) as Hinit
    by (vm_compute; reflexivity).
  assert (abcde ≠ []) as HS by done.
  assert (edc ≠ []) as HT by done.
  assert (2 ≤ length abcde `max` length edc) as Hl by (simpl; lia).
  assert (0 <= 98 # 100)%Q as Hp0 by done.
  assert (98 # 100 <= 1)%Q as Hp1 by done.
  repeat (split; [assumption|]).
  exact (rbo_ext_score_bounds _ _ _ (98 # 100) Hinit HS HT Hl Hp0 Hp1).
Defined.

Lemma rbo_ext_disjoint_lists_witness :
  ∃ self, RankingSimilarity_init ["a"; "b"; "c"] ["d"; "e"] = Ok self
    ∧ ["a"; "b"; "c"] ≠ [] ∧ ["d"; "e"] ≠ []
    ∧ 2 ≤ length ["a"; "b"; "c"] `max` length ["d"; "e"]
    ∧ (∀ x : string, x ∈ ["a"; "b"; "c"] → x ∉ ["d"; "e"])
    ∧ (0 <= 98 # 100)%Q ∧ (98 # 100 <= 1)%Q
    ∧ ∃ v, rbo_ext self (98 # 100) = Ok v ∧ (v == 0)%Q.
Proof.
  exists (ranking_of ["a"; "b"; "c"] ["d"; "e"]).
  assert (RankingSimilarity_init ["a"; "b"; "c"] ["d"; "e"]
          = Ok (ranking_of ["a"; "b"; "c"] ["d"; "e"])) as Hinit
    by (vm_compute; reflexivity).
  assert (["a"; "b"; "c"] ≠ @nil string) as HS by done.
  assert (["d"; "e"] ≠ @nil string) as HT by done.
  assert (2 ≤ length ["a"; "b"; "c"] `max` length ["d"; "e"]) as Hl by (simpl; lia).
  assert (∀ x : string, x ∈ ["a"; "b"; "c"] → x ∉ ["d"; "e"]) as Hdisj.
  { intros x Hx Hx'. set_unfold. naive_solver. }
  assert (0 <= 98 # 100)%Q as Hp0 by done.
  assert (98 # 100 <= 1)%Q as Hp1 by done.
  repeat (split; [assumption|]).
  exact (rbo_ext_disjoint_lists _ _ _ (98 # 100) Hinit HS HT Hl Hdisj Hp0 Hp1).
Defined.

Lemma rbo_printing_report_witness :
  ∃ self, RankingSimilarity_init abcde edc = Ok self
    ∧ abcde ≠ [] ∧ edc ≠ [] ∧ valid_depth None ∧ valid_p 1
    ∧ progress_report (effective_depth self None) (rbo_printing self None 1 false).1.
Proof.
  exists (ranking_of abcde edc).
  assert (RankingSimilarity_init abcde edc = Ok (ranking_of abcde edc)) as Hinit
    by (vm_compute; reflexivity).
  assert (abcde ≠ []) as HS by done.
  assert (edc ≠ []) as HT by done.
  assert (valid_depth None) as Hk by done.
  assert (valid_p 1) as Hp by (left; done).
  repeat (split; [assumption|]).
  exact (rbo_printing_report _ _ _ None 1 false Hinit HS HT Hk Hp).
Defined.

Lemma rbo_ext_printing_report_witness :
  0 < length (self_S (ranking_of abcde edc)) `min` length (self_T (ranking_of abcde edc))
  ∧ (0 <= 98 # 100)%Q ∧ (98 # 100 <= 1)%Q
  ∧ progress_report
      (Z.of_nat (length (self_S (ranking_of abcde edc))
                 `max` length (self_T (ranking_of abcde edc))))
      (rbo_ext_printing (ranking_of abcde edc) (98 # 100)).1.
Proof.
  assert (0 < length (self_S (ranking_of abcde edc))
              `min` length (self_T (ranking_of abcde edc))) as Hmin
    by (simpl; lia).
  assert (0 <= 98 # 100)%Q as Hp0 by done.
  assert (98 # 100 <= 1)%Q as Hp1 by done.
  repeat (split; [assumption|]).
  exact (rbo_ext_printing_report (ranking_of abcde edc) (98 # 100) Hmin Hp0 Hp1).
Defined.


Lemma kendall_ranks_aligned_witness :
  ∃ self, RankingSimilarity_init abcde edc = Ok self ∧ abcde ≠ [] ∧ edc ≠ []
    ∧ ∃ items S_rank T_rank,
        kendall_ranks String.le self = Ok (S_rank, T_rank)
        ∧ Sorted String.le items ∧ NoDup items
        ∧ (∀ x, x ∈ items ↔ x ∈ abcde ∧ x ∈ edc)
        ∧ Forall2 (λ x r, ∃ n, r = Some (Z.of_nat n) ∧ abcde !! n = Some x)
                  items S_rank
        ∧ Forall2 (λ x r, ∃ n, r = Some (Z.of_nat n) ∧ edc !! n = Some x)
                  items T_rank.
Proof.
  exists (ranking_of abcde edc).
  assert (RankingSimilarity_init abcde edc = Ok (ranking_of abcde edc)) as Hinit
    by (vm_compute; reflexivity).
  assert (abcde ≠ []) as HS by done.
  assert (edc ≠ []) as HT by done.
  repeat (split; [assumption|]).
  exact (kendall_ranks_aligned String.le abcde edc _ Hinit HS HT).
Defined.
